(** * ai-impact-brief: the daily digest batch, [scripts/generate_today.py]

    A shallow embedding of the candidate pipeline (URL normalisation,
    keyword classifiers, candidate collection, diverse selection) and of
    the payload construction of [main], followed by the properties the
    specification states about them.

    Representation of Python values.
    - A [str] is a [string]: the sequence of bytes of its UTF-8 encoding.
      ASCII text is represented character by character.  Substring tests,
      concatenation and comparison by code point coincide with the same
      operations on the UTF-8 bytes; slicing by characters is
      [take_chars].  [lower] folds the ASCII letters only: a cased letter
      outside ASCII is left as it is.
    - A [set] of strings is a [gset string], a [dict] with string keys is
      an association list in insertion order ([json]).
    - A raised exception is [None] (or [Raised]) in the result type.
    - The clock, the network and the file system are fields of [world];
      the clock is read through the state monad [M]. *)

From Stdlib Require Import ZArith NArith String Ascii List Lia Bool.
From stdpp Require Import base option list gmap strings sorting.

Set Warnings "-register-all,-clear-no-such-hyp".

Open Scope string_scope.
Open Scope list_scope.

(* ===================================================================== *)
(** * Python strings                                                      *)
(* ===================================================================== *)

Module PyStr.
#[local] Open Scope string_scope.

Definition code (c : ascii) : N := N_of_ascii c.

Definition in_range (lo hi : N) (c : ascii) : bool :=
  ((lo <=? code c) && (code c <=? hi))%N.

Definition is_upper (c : ascii) : bool := in_range 65 90 c.
Definition is_lower (c : ascii) : bool := in_range 97 122 c.
Definition is_digit (c : ascii) : bool := in_range 48 57 c.
Definition is_ascii_char (c : ascii) : bool := (code c <? 128)%N.
Definition is_alpha (c : ascii) : bool := is_upper c || is_lower c.

(** [str.lower()] on the ASCII letters. *)
Definition lower_char (c : ascii) : ascii :=
  if is_upper c then ascii_of_N (code c + 32) else c.

Fixpoint lower (s : string) : string :=
  match s with
  | EmptyString => EmptyString
  | String c r => String (lower_char c) (lower r)
  end.

(** [s.startswith(p)]. *)
Fixpoint startswith (s p : string) {struct p} : bool :=
  match p with
  | EmptyString => true
  | String a p' =>
      match s with
      | EmptyString => false
      | String b s' => Ascii.eqb a b && startswith s' p'
      end
  end.

(** [k in t]: [k] occurs in [t] as a contiguous substring. *)
Fixpoint contains (k t : string) : bool :=
  startswith t k ||
  match t with
  | EmptyString => false
  | String _ r => contains k r
  end.

(** [c in s] for a single character. *)
Fixpoint has_char (c : ascii) (s : string) : bool :=
  match s with
  | EmptyString => false
  | String d r => Ascii.eqb c d || has_char c r
  end.

Fixpoint all_chars (p : ascii -> bool) (s : string) : bool :=
  match s with
  | EmptyString => true
  | String c r => p c && all_chars p r
  end.

Definition is_empty (s : string) : bool :=
  match s with EmptyString => true | _ => false end.

(** [a or b] on strings: the first if it is non-empty. *)
Definition str_or (a b : string) : string := if is_empty a then b else a.

(** A byte that continues a multi-byte UTF-8 character. *)
Definition is_continuation (c : ascii) : bool := in_range 128 191 c.

(** [s[:n]]: the first [n] characters (code points) of [s]. *)
Fixpoint take_chars (n : nat) (s : string) : string :=
  match s with
  | EmptyString => EmptyString
  | String c r =>
      if is_continuation c then String c (take_chars n r)
      else match n with
           | O => EmptyString
           | S n' => String c (take_chars n' r)
           end
  end.

Definition utf8_2 (a b : N) : string :=
  String (ascii_of_N a) (String (ascii_of_N b) EmptyString).
Definition utf8_3 (a b c : N) : string :=
  String (ascii_of_N a) (utf8_2 b c).

(** The whitespace characters of [str.isspace], which [str.strip] removes
    and the class [\s] of [re] matches on a [str] pattern.  The ASCII
    ones are TAB..CR, FS..US and the space; the others are U+0085, U+00A0,
    U+1680, U+2000..U+200A, U+2028, U+2029, U+202F, U+205F and U+3000,
    listed by their UTF-8 bytes. *)
Definition is_space_char (c : ascii) : bool :=
  in_range 9 13 c || in_range 28 32 c.

Definition unicode_spaces : list string :=
  [ utf8_2 194 133; utf8_2 194 160; utf8_3 225 154 128 ] ++
  map (utf8_3 226 128) [128; 129; 130; 131; 132; 133; 134; 135; 136; 137; 138]%N ++
  [ utf8_3 226 128 168; utf8_3 226 128 169; utf8_3 226 128 175;
    utf8_3 226 129 159; utf8_3 227 128 128 ].

(** The number of bytes of the whitespace character [s] starts with, [0]
    when it starts with none. *)
Definition space_len (s : string) : nat :=
  match s with
  | EmptyString => 0
  | String c _ =>
      if is_space_char c then 1
      else match find (startswith s) unicode_spaces with
           | Some w => String.length w
           | None => 0
           end
  end.

(** [s] consists of whitespace only; [skip] bytes of a whitespace
    character are still to be passed. *)
Fixpoint all_space_from (skip : nat) (s : string) : bool :=
  match s with
  | EmptyString => true
  | String _ r =>
      match skip with
      | S k => all_space_from k r
      | O => match space_len s with
             | O => false
             | S k => all_space_from k r
             end
      end
  end.

Definition all_space (s : string) : bool := all_space_from 0 s.

(** [s.lstrip()], [s.rstrip()] and [s.strip()]. *)
Fixpoint lstrip_from (skip : nat) (s : string) : string :=
  match s with
  | EmptyString => EmptyString
  | String _ r =>
      match skip with
      | S k => lstrip_from k r
      | O => match space_len s with
             | O => s
             | S k => lstrip_from k r
             end
      end
  end.

Definition lstrip (s : string) : string := lstrip_from 0 s.

Fixpoint rstrip (s : string) : string :=
  match s with
  | EmptyString => EmptyString
  | String c r => if all_space s then EmptyString else String c (rstrip r)
  end.

Definition strip (s : string) : string := rstrip (lstrip s).

(** [re.sub(r"\s+", " ", s)]: every run of whitespace becomes one space. *)
Fixpoint collapse_spaces (skip : nat) (in_run : bool) (s : string) : string :=
  match s with
  | EmptyString => EmptyString
  | String c r =>
      match skip with
      | S k => collapse_spaces k in_run r
      | O => match space_len s with
             | O => String c (collapse_spaces 0 false r)
             | S k => if in_run then collapse_spaces k true r
                      else String " " (collapse_spaces k true r)
             end
      end
  end.

Fixpoint drop (n : nat) (s : string) : string :=
  match n, s with
  | S n', String _ r => drop n' r
  | _, _ => s
  end.

(** [s.rstrip(chars)] and [s.lstrip(chars)] for a set of single characters. *)
Fixpoint rstrip_chars (p : ascii -> bool) (s : string) : string :=
  match s with
  | EmptyString => EmptyString
  | String c r => if all_chars p s then EmptyString else String c (rstrip_chars p r)
  end.

Fixpoint lstrip_chars (p : ascii -> bool) (s : string) : string :=
  match s with
  | EmptyString => EmptyString
  | String c r => if p c then lstrip_chars p r else s
  end.

(** [s.replace(c, "")] for a set of single characters. *)
Fixpoint remove_chars (p : ascii -> bool) (s : string) : string :=
  match s with
  | EmptyString => EmptyString
  | String c r => if p c then remove_chars p r else String c (remove_chars p r)
  end.

(** [s.replace(a, b)] for single characters. *)
Fixpoint replace_char (a b : ascii) (s : string) : string :=
  match s with
  | EmptyString => EmptyString
  | String c r => String (if Ascii.eqb c a then b else c) (replace_char a b r)
  end.

(** [s.partition(c)] for a single character: the text before the first
    [c] and, when there is one, the text after it. *)
Fixpoint partition (c : ascii) (s : string) : string * option string :=
  match s with
  | EmptyString => (EmptyString, None)
  | String d r =>
      if Ascii.eqb d c then (EmptyString, Some r)
      else let '(a, b) := partition c r in (String d a, b)
  end.

(** [a, b = s.split(c, 1)] when [c] is in [s]; [(s, "")] when it is not. *)
Definition split_once (c : ascii) (s : string) : string * string :=
  match partition c s with
  | (a, Some b) => (a, b)
  | (a, None) => (a, EmptyString)
  end.

(** [s.split(c)] for a single character. *)
Fixpoint split (c : ascii) (s : string) : list string :=
  match s with
  | EmptyString => [EmptyString]
  | String d r =>
      if Ascii.eqb d c then EmptyString :: split c r
      else match split c r with
           | w :: ws => String d w :: ws
           | [] => [String d EmptyString]
           end
  end.

(** [sep.join(l)]. *)
Fixpoint join (sep : string) (l : list string) : string :=
  match l with
  | [] => EmptyString
  | [x] => x
  | x :: rest => x ++ sep ++ join sep rest
  end.

(** The text up to the first character satisfying [p], and the rest
    from that character on. *)
Fixpoint span_until (p : ascii -> bool) (s : string) : string * string :=
  match s with
  | EmptyString => (EmptyString, EmptyString)
  | String c r =>
      if p c then (EmptyString, s)
      else let '(a, b) := span_until p r in (String c a, b)
  end.

End PyStr.

(* ===================================================================== *)
(** * [urllib.parse]                                                      *)
(* ===================================================================== *)

(** The functions of the Python standard library that [normalize_url]
    calls, after CPython 3.11's [urllib/parse.py]. *)
Module Url.
Import PyStr.
#[local] Open Scope string_scope.

Record ParseResult := {
  scheme : string;
  netloc : string;
  path : string;
  params : string;
  query : string;
  fragment : string
}.

Definition uses_netloc : list string :=
  [ ""; "ftp"; "http"; "gopher"; "nntp"; "telnet"; "imap"; "wais"; "file";
    "mms"; "https"; "shttp"; "snews"; "prospero"; "rtsp"; "rtspu"; "rsync";
    "svn"; "svn+ssh"; "sftp"; "nfs"; "git"; "git+ssh"; "ws"; "wss" ].

Definition uses_params : list string :=
  [ ""; "ftp"; "hdl"; "prospero"; "http"; "imap"; "https"; "shttp"; "rtsp";
    "rtspu"; "sip"; "sips"; "mms"; "sftp"; "tel" ].

Definition str_in (s : string) (l : list string) : bool :=
  existsb (String.eqb s) l.

(** [c in scheme_chars]. *)
Definition scheme_char (c : ascii) : bool :=
  is_lower c || is_upper c || is_digit c ||
  Ascii.eqb c "+" || Ascii.eqb c "-" || Ascii.eqb c ".".

(** [_WHATWG_C0_CONTROL_OR_SPACE] and [_UNSAFE_URL_BYTES_TO_REMOVE]. *)
Definition c0_control_or_space (c : ascii) : bool := (code c <=? 32)%N.
Definition unsafe_url_byte (c : ascii) : bool :=
  (code c =? 9)%N || (code c =? 13)%N || (code c =? 10)%N.

Definition netloc_delim (c : ascii) : bool :=
  Ascii.eqb c "/" || Ascii.eqb c "?" || Ascii.eqb c "#".

Section Checks.
(** The two validations of a netloc that are not modelled further:
    [_check_bracketed_netloc] (the syntax of an IPv6 or IPvFuture
    literal between brackets) and the NFKC test of [_checknetloc] on a
    netloc that is not ASCII.  Each is [true] when the Python function
    returns and [false] when it raises [ValueError]. *)
Variable check_bracketed_netloc : string -> bool.
Variable checknetloc_nfkc : string -> bool.

Definition _checknetloc (nl : string) : bool :=
  if is_empty nl || all_chars is_ascii_char nl then true
  else checknetloc_nfkc nl.

Definition brackets_ok (nl : string) : bool :=
  let o := has_char "[" nl in
  let c := has_char "]" nl in
  if (o && negb c) || (c && negb o) then false
  else if o && c then check_bracketed_netloc nl
  else true.

(** The scheme of [url] and the text after its colon, when [url] starts
    with a letter and has only scheme characters before its first colon. *)
Definition split_scheme (url : string) : option (string * string) :=
  match partition ":" url with
  | (String c0 pre, Some rest) =>
      if is_ascii_char c0 && is_alpha c0 && all_chars scheme_char (String c0 pre)
      then Some (lower (String c0 pre), rest)
      else None
  | _ => None
  end.

(** [urlsplit(url)]: scheme, netloc, path, query, fragment; [None] when
    it raises [ValueError]. *)
Definition urlsplit (url : string)
  : option (string * string * string * string * string) :=
  let url := lstrip_chars c0_control_or_space url in
  let url := remove_chars unsafe_url_byte url in
  let '(scheme, url) :=
    match split_scheme url with
    | Some (s, rest) => (s, rest)
    | None => (EmptyString, url)
    end in
  let '(netloc, url, ok) :=
    if startswith url "//" then
      let '(nl, rest) := span_until netloc_delim (drop 2 url) in
      (nl, rest, brackets_ok nl)
    else (EmptyString, url, true) in
  let '(url, fragment) := split_once "#" url in
  let '(url, query) := split_once "?" url in
  if ok && _checknetloc netloc
  then Some (scheme, netloc, url, query, fragment)
  else None.

(** [_splitparams(url)]: split at the first [;] after the last [/]. *)
Fixpoint _splitparams (url : string) : string * string :=
  match url with
  | EmptyString => (EmptyString, EmptyString)
  | String c r =>
      if has_char "/" r then
        let '(a, b) := _splitparams r in (String c a, b)
      else split_once ";" url
  end.

Definition urlparse (url : string) : option ParseResult :=
  match urlsplit url with
  | None => None
  | Some (scheme, netloc, url, query, fragment) =>
      let '(url, params) :=
        if str_in scheme uses_params && has_char ";" url
        then _splitparams url
        else (url, EmptyString) in
      Some {| scheme := scheme; netloc := netloc; path := url;
              params := params; query := query; fragment := fragment |}
  end.
End Checks.

Definition urlunsplit (scheme netloc url query fragment : string) : string :=
  let url :=
    if negb (is_empty netloc) ||
       (negb (is_empty scheme) && str_in scheme uses_netloc &&
        negb (startswith url "//"))
    then
      let url := if negb (is_empty url) && negb (startswith url "/")
                 then "/" ++ url else url in
      "//" ++ netloc ++ url
    else url in
  let url := if negb (is_empty scheme) then scheme ++ ":" ++ url else url in
  let url := if negb (is_empty query) then url ++ "?" ++ query else url in
  let url := if negb (is_empty fragment) then url ++ "#" ++ fragment else url in
  url.

Definition urlunparse (scheme netloc url params query fragment : string) : string :=
  let url := if negb (is_empty params) then url ++ ";" ++ params else url in
  urlunsplit scheme netloc url query fragment.

(** ** Percent-encoding *)

Definition hexval (c : ascii) : option N :=
  if is_digit c then Some (code c - 48)%N
  else if in_range 65 70 c then Some (code c - 55)%N
  else if in_range 97 102 c then Some (code c - 87)%N
  else None.

Definition hexdigit (n : N) : ascii :=
  if (n <? 10)%N then ascii_of_N (48 + n) else ascii_of_N (55 + n).

(** [unquote_to_bytes]: every [%XX] with two hexadecimal digits becomes
    the byte [XX]; any other [%] stays. *)
Fixpoint unquote_to_bytes (s : string) : string :=
  match s with
  | EmptyString => EmptyString
  | String c r =>
      if Ascii.eqb c "%" then
        match r with
        | String h1 (String h2 r2) =>
            match hexval h1, hexval h2 with
            | Some a, Some b => String (ascii_of_N (16 * a + b)) (unquote_to_bytes r2)
            | _, _ => String c (unquote_to_bytes r)
            end
        | _ => String c (unquote_to_bytes r)
        end
      else String c (unquote_to_bytes r)
  end.

(** U+FFFD, the replacement character, in UTF-8. *)
Definition replacement : string :=
  String (ascii_of_N 239) (String (ascii_of_N 191) (String (ascii_of_N 189) "")).

(** The range of the byte that may follow the lead byte [b0] of a
    three- or four-byte character. *)
Definition second_byte_range (b0 : ascii) : N * N :=
  let n := code b0 in
  if (n =? 224)%N then (160, 191)%N
  else if (n =? 237)%N then (128, 159)%N
  else if (n =? 240)%N then (144, 191)%N
  else if (n =? 244)%N then (128, 143)%N
  else (128, 191)%N.

(** [bytes.decode("utf-8", "replace")], the result again in UTF-8: every
    maximal ill-formed part of the input becomes one U+FFFD. *)
Fixpoint utf8_replace (s : string) : string :=
  match s with
  | EmptyString => EmptyString
  | String b0 r0 =>
      if is_ascii_char b0 then String b0 (utf8_replace r0)
      else if in_range 194 223 b0 then
        match r0 with
        | EmptyString => replacement
        | String b1 r1 =>
            if is_continuation b1 then String b0 (String b1 (utf8_replace r1))
            else replacement ++ utf8_replace r0
        end
      else if in_range 224 239 b0 then
        let '(lo, hi) := second_byte_range b0 in
        match r0 with
        | EmptyString => replacement
        | String b1 r1 =>
            if in_range lo hi b1 then
              match r1 with
              | EmptyString => replacement
              | String b2 r2 =>
                  if is_continuation b2
                  then String b0 (String b1 (String b2 (utf8_replace r2)))
                  else replacement ++ utf8_replace r1
              end
            else replacement ++ utf8_replace r0
        end
      else if in_range 240 244 b0 then
        let '(lo, hi) := second_byte_range b0 in
        match r0 with
        | EmptyString => replacement
        | String b1 r1 =>
            if in_range lo hi b1 then
              match r1 with
              | EmptyString => replacement
              | String b2 r2 =>
                  if is_continuation b2 then
                    match r2 with
                    | EmptyString => replacement
                    | String b3 r3 =>
                        if is_continuation b3
                        then String b0 (String b1 (String b2 (String b3 (utf8_replace r3))))
                        else replacement ++ utf8_replace r2
                    end
                  else replacement ++ utf8_replace r1
              end
            else replacement ++ utf8_replace r0
        end
      else replacement ++ utf8_replace r0
  end.

(** The maximal runs of ASCII and of non-ASCII bytes of [s], in order. *)
Fixpoint ascii_runs (s : string) : list (bool * string) :=
  match s with
  | EmptyString => []
  | String c r =>
      let b := is_ascii_char c in
      match ascii_runs r with
      | (b', w) :: t =>
          if Bool.eqb b b' then (b, String c w) :: t
          else (b, String c EmptyString) :: (b', w) :: t
      | [] => [(b, String c EmptyString)]
      end
  end.

(** [unquote(string)]: the escapes of each ASCII run are decoded together. *)
Definition unquote (s : string) : string :=
  if negb (has_char "%" s) then s
  else
    String.concat ""
      (map (fun bw : bool * string =>
              if fst bw then utf8_replace (unquote_to_bytes (snd bw)) else snd bw)
           (ascii_runs s)).

(** [parse_qsl(qs, keep_blank_values=True)]. *)
Definition parse_field (name_value : string) : string * string :=
  let '(n, v) := split_once "=" name_value in
  (unquote (replace_char "+" " " n), unquote (replace_char "+" " " v)).

Definition parse_qsl (qs : string) : list (string * string) :=
  let query_args := if is_empty qs then [] else split "&" qs in
  map parse_field (List.filter (fun nv => negb (is_empty nv)) query_args).

(** [_ALWAYS_SAFE]. *)
Definition always_safe (c : ascii) : bool :=
  is_upper c || is_lower c || is_digit c ||
  Ascii.eqb c "_" || Ascii.eqb c "." || Ascii.eqb c "-" || Ascii.eqb c "~".

Definition quote_byte (c : ascii) : string :=
  if always_safe c then String c EmptyString
  else if Ascii.eqb c " " then "+"
  else String "%" (String (hexdigit (code c / 16)) (String (hexdigit (code c mod 16)) "")).

(** [quote_plus(string)] with the default [safe='']. *)
Fixpoint quote_plus (s : string) : string :=
  match s with
  | EmptyString => EmptyString
  | String c r => quote_byte c ++ quote_plus r
  end.

(** [urlencode(q)] for a list of pairs of strings. *)
Definition urlencode (q : list (string * string)) : string :=
  join "&" (map (fun kv => quote_plus (fst kv) ++ "=" ++ quote_plus (snd kv)) q).

End Url.

(* ===================================================================== *)
(** * URL normalisation                                                   *)
(* ===================================================================== *)

Section Normalize.
Import PyStr Url.
#[local] Open Scope string_scope.
Variable check_bracketed_netloc : string -> bool.
Variable checknetloc_nfkc : string -> bool.

(** [normalize_url(url)]; [None] when [urlparse] raises [ValueError]. *)
Definition normalize_url (url : string) : option string :=
  match urlparse check_bracketed_netloc checknetloc_nfkc (strip url) with
  | None => None
  | Some u =>
      let q := List.filter (fun kv : string * string =>
                         negb (startswith (lower (fst kv)) "utm_"))
                      (parse_qsl (query u)) in
      let query := urlencode q in
      let path := str_or (rstrip_chars (Ascii.eqb "/") (path u)) "/" in
      let scheme := str_or (scheme u) "https" in
      let scheme := if String.eqb scheme "http" then "https" else scheme in
      Some (urlunparse scheme (lower (netloc u)) path (params u) query "")
  end.
End Normalize.

(* ===================================================================== *)
(** * Text helpers and keyword classifiers                                *)
(* ===================================================================== *)

Section Text.
Import PyStr.
#[local] Open Scope string_scope.

(** [re.sub(r"<[^>]+>", " ", s)].  [pending] holds the text read since a
    [<] that no [>] has closed yet. *)
Fixpoint strip_tags (pending : option string) (s : string) : string :=
  match s with
  | EmptyString =>
      match pending with
      | Some buf => String "<" buf
      | None => EmptyString
      end
  | String c r =>
      match pending with
      | None =>
          if Ascii.eqb c "<" then strip_tags (Some EmptyString) r
          else String c (strip_tags None r)
      | Some buf =>
          if Ascii.eqb c ">" then
            if is_empty buf then String "<" (String ">" (strip_tags None r))
            else String " " (strip_tags None r)
          else strip_tags (Some (buf ++ String c EmptyString)) r
      end
  end.

Definition strip_html (s : string) : string :=
  let s := strip_tags None s in
  strip (collapse_spaces 0 false s).

Definition AI_KEYWORDS : list string :=
  [ "ai"; "artificial intelligence"; "machine learning"; "deep learning";
    "llm"; "gpt"; "chatgpt"; "claude"; "gemini"; "foundation model";
    "agent"; "inference"; "training"; "benchmark"; "transformer";
    "gpu"; "nvidia"; "chip"; "semiconductor";
    "ai act"; "regulation"; "governance"; "copyright"; "export controls";
    "生成ai"; "人工知能"; "大規模言語モデル"; "推論"; "学習"; "規制"; "半導体" ].

(** [any(k in t for k in keys)]. *)
Definition any_in (keys : list string) (t : string) : bool :=
  existsb (fun k => contains k t) keys.

Definition looks_ai_related (title summary : string) : bool :=
  let blob := lower (title ++ " " ++ summary) in
  any_in AI_KEYWORDS blob.

Definition market_keywords : list string :=
  [ "funding"; "valuation"; "investment"; "ipo"; "earnings"; "revenue";
    "acquisition"; "merger"; "deal"; "partnership"; "pricing"; "layoff" ].
Definition policy_keywords : list string :=
  [ "regulation"; "ai act"; "law"; "policy"; "government"; "ban";
    "copyright"; "antitrust"; "export"; "controls"; "sanction"; "compliance" ].
Definition tech_keywords : list string :=
  [ "model"; "release"; "benchmark"; "training"; "inference"; "agent";
    "chip"; "gpu"; "architecture"; "open source"; "dataset"; "token"; "context" ].

Definition infer_bucket (title summary : string) : string :=
  let t := lower (title ++ " " ++ summary) in
  if any_in policy_keywords t then "policy"
  else if any_in market_keywords t then "market"
  else if any_in tech_keywords t then "tech"
  else "tech".

Definition source_priority (name : string) : Z :=
  let n := lower name in
  if any_in ["openai"; "anthropic"; "deepmind"; "google"; "hugging face"] n then 1
  else if any_in ["itmedia"; "ainow"] n then 2
  else 3.
End Text.

(* ===================================================================== *)
(** * Candidates, feeds and the world of one run                          *)
(* ===================================================================== *)

Definition AI_TECH_RSS_FEEDS : list (string * string) :=
  [ ("OpenAI", "https://openai.com/blog/rss/");
    ("Google AI Blog", "https://blog.google/technology/ai/rss/");
    ("Anthropic", "https://www.anthropic.com/news/rss.xml");
    ("DeepMind Blog", "https://deepmind.google/blog/rss.xml");
    ("Hugging Face Blog", "https://huggingface.co/blog/feed.xml");
    ("TechCrunch AI", "https://techcrunch.com/tag/artificial-intelligence/feed/");
    ("The Verge AI", "https://www.theverge.com/rss/ai-artificial-intelligence/index.xml");
    ("VentureBeat AI", "https://venturebeat.com/category/ai/feed/");
    ("MIT Technology Review", "https://www.technologyreview.com/feed/");
    ("ITmedia AI+", "https://rss.itmedia.co.jp/rss/2.0/aiplus.xml");
    ("AINOW", "https://ainow.ai/feed/") ].

Definition OUT_PATH : string := "public/today.json".
Definition ARCHIVE_DIR : string := "public/archive".
Definition PER_FEED_LIMIT : nat := 12.
Definition TOTAL_CANDIDATES : nat := 80.

(** The dict that [collect_candidates] builds for one item. *)
Record candidate := {
  source : string;
  original_title : string;
  original_url : string;
  published_at : string;
  summary_raw : string;
  bucket : string;
  priority : Z
}.

(** An entry of a parsed feed: what [e.get(key)] gives for each key the
    script reads, [None] when the key is absent or holds [None]. *)
Record entry := {
  e_link : option string;
  e_title : option string;
  e_summary : option string;
  e_description : option string;
  e_published : option string;
  e_updated : option string;
  e_created : option string
}.

(** A [datetime] in UTC, seen through the three methods the script calls:
    [isoformat()], [date().isoformat()] and [timestamp()] (in microseconds,
    so that it is an integer). *)
Record datetime := {
  isoformat : string;
  date_isoformat : string;
  timestamp : Z
}.

(** Values of [json.loads]; numbers are the integers. *)
Inductive json :=
| JNull
| JBool (b : bool)
| JInt (n : Z)
| JStr (s : string)
| JList (l : list json)
| JDict (kv : list (string * json)).

(** The result of a call that may raise. *)
Inductive outcome (A : Type) :=
| Returned (a : A)
| Raised.
Arguments Returned {A} a.
Arguments Raised {A}.

(** Everything outside the process that one run observes. *)
Record world := {
  (** The entries of [fetch_feed(name, url)]; [None] when it raises. *)
  fetch_feed : string -> string -> option (list entry);
  (** [dateutil.parser.parse(s)], moved to UTC; [None] when it raises. *)
  date_parser_parse : string -> option datetime;
  (** The successive readings of [datetime.now(timezone.utc)]. *)
  clock : nat -> datetime;
  (** The environment variable, stripped. *)
  OPENAI_API_KEY : string;
  (** The request of [openai_structurize] and the [json.loads] of its reply. *)
  openai_reply : list candidate -> outcome json;
  (** [str(v)] for a JSON value that is not a string. *)
  py_str : json -> string;
  (** Whether [open(path, "w")] and the dump succeed. *)
  can_write : string -> bool;
  (** The two netloc validations of [urllib.parse] (see [Url.Checks]). *)
  check_bracketed_netloc : string -> bool;
  checknetloc_nfkc : string -> bool
}.

(** The state monad of the clock: the state counts the readings so far. *)
Definition M (A : Type) : Type := nat -> A * nat.
#[global] Instance M_ret : MRet M := fun A a t => (a, t).
#[global] Instance M_bind : MBind M :=
  fun A B k m t => let '(a, t') := m t in k a t'.
Definition ret {A} (a : A) : M A := mret a.

Section Run.
Import PyStr.
#[local] Open Scope string_scope.
Variable w : world.

(** [datetime.now(timezone.utc)]. *)
Definition now : M datetime := fun t => (clock w t, S t).

Definition truthy_str (o : option string) : option string :=
  match o with
  | Some s => if is_empty s then None else Some s
  | None => None
  end.

Definition safe_date (s : option string) : option datetime :=
  match truthy_str s with
  | None => None
  | Some s => date_parser_parse w s
  end.

Definition pick_published (e : entry) : option datetime :=
  match safe_date (e_published e) with
  | Some dt => Some dt
  | None =>
      match safe_date (e_updated e) with
      | Some dt => Some dt
      | None => safe_date (e_created e)
      end
  end.

(** The state of the loops of [collect_candidates]. *)
Record collector := {
  items : list candidate;
  seen_urls : gset string
}.

(** The body of [for e in entries[:PER_FEED_LIMIT]].  A [ValueError] of
    [normalize_url] leaves the [try] block: the entries after it are not
    read, what was collected stays. *)
Fixpoint collect_entries (name : string) (es : list entry) (st : collector)
  : M collector :=
  match es with
  | [] => ret st
  | e :: rest =>
      match truthy_str (e_link e), truthy_str (e_title e) with
      | Some link, Some title =>
          match normalize_url (check_bracketed_netloc w) (checknetloc_nfkc w) link with
          | None => ret st
          | Some nurl =>
              if decide (nurl ∈ seen_urls st) then collect_entries name rest st
              else
                let summary :=
                  strip_html
                    (match truthy_str (e_summary e) with
                     | Some s => s
                     | None => match truthy_str (e_description e) with
                               | Some s => s
                               | None => EmptyString
                               end
                     end) in
                let t := strip_html title in
                if negb (looks_ai_related t summary) then collect_entries name rest st
                else
                  published_dt ← match pick_published e with
                                 | Some dt => ret dt
                                 | None => now
                                 end;
                  collect_entries name rest
                    {| items := items st ++
                         [ {| source := name;
                              original_title := t;
                              original_url := nurl;
                              published_at := isoformat published_dt;
                              summary_raw := take_chars 1500 summary;
                              bucket := infer_bucket t summary;
                              priority := source_priority name |} ];
                       seen_urls := {[ nurl ]} ∪ seen_urls st |}
          end
      | _, _ => collect_entries name rest st
      end
  end.

(** The body of [for name, url in AI_TECH_RSS_FEEDS.items()]. *)
Fixpoint collect_feeds (feeds : list (string * string)) (st : collector)
  : M collector :=
  match feeds with
  | [] => ret st
  | (name, url) :: rest =>
      match fetch_feed w name url with
      | None => collect_feeds rest st
      | Some entries =>
          st' ← collect_entries name (take PER_FEED_LIMIT entries) st;
          collect_feeds rest st'
      end
  end.

(** The sort key [(x["priority"], -dt(x).timestamp())]. *)
Definition sort_key (x : candidate) : M (Z * Z) :=
  d ← match date_parser_parse w (published_at x) with
      | Some d => ret d
      | None => now
      end;
  ret (priority x, (- timestamp d)%Z).

Fixpoint with_keys (l : list candidate) : M (list ((Z * Z) * candidate)) :=
  match l with
  | [] => ret []
  | x :: rest =>
      k ← sort_key x;
      ks ← with_keys rest;
      ret ((k, x) :: ks)
  end.

(** Comparison of the key tuples: [a <= b]. *)
Definition key_le (a b : Z * Z) : bool :=
  (fst a <? fst b)%Z || ((fst a =? fst b)%Z && (snd a <=? snd b)%Z).

(** [list.sort(key=...)] is stable: an item goes before the first item
    of the sorted rest whose key is not smaller. *)
Fixpoint insert_sorted {A} (x : (Z * Z) * A) (l : list ((Z * Z) * A))
  : list ((Z * Z) * A) :=
  match l with
  | [] => [x]
  | y :: rest =>
      if key_le (fst x) (fst y) then x :: y :: rest
      else y :: insert_sorted x rest
  end.

Definition sort_by_key {A} (l : list ((Z * Z) * A)) : list A :=
  map snd (fold_right insert_sorted [] l).

Definition collect_candidates : M (list candidate) :=
  st ← collect_feeds AI_TECH_RSS_FEEDS {| items := []; seen_urls := ∅ |};
  keyed ← with_keys (items st);
  ret (take TOTAL_CANDIDATES (sort_by_key keyed)).

End Run.

(* ===================================================================== *)
(** * Diverse selection                                                   *)
(* ===================================================================== *)

(** The inner loop of the first phase: the first candidate of [bucket]
    whose source is not used yet. *)
Fixpoint first_of_bucket (b : string) (used_sources : gset string)
    (cands : list candidate) : option candidate :=
  match cands with
  | [] => None
  | it :: rest =>
      if decide (source it ∈ used_sources) then first_of_bucket b used_sources rest
      else if negb (String.eqb (bucket it) b) then first_of_bucket b used_sources rest
      else Some it
  end.

(** One turn of [for bucket in ["market", "policy", "tech"]]. *)
Definition fill_bucket (cands : list candidate)
    (st : list candidate * gset string) (b : string)
  : list candidate * gset string :=
  match first_of_bucket b (snd st) cands with
  | Some it => (fst st ++ [it], {[ source it ]} ∪ snd st)
  | None => st
  end.

(** The loop of the second phase, which stops when three are picked. *)
Fixpoint fill_rest (cands : list candidate) (st : list candidate * gset string)
  : list candidate * gset string :=
  match cands with
  | [] => st
  | it :: rest =>
      if decide (source it ∈ snd st) then fill_rest rest st
      else
        let st' := (fst st ++ [it], {[ source it ]} ∪ snd st) in
        if Nat.eqb (length (fst st')) 3 then st' else fill_rest rest st'
  end.

Definition pick_three_diverse (cands : list candidate) : list candidate :=
  let st := fold_left (fill_bucket cands) ["market"; "policy"; "tech"] ([], ∅) in
  let st := if Nat.ltb (length (fst st)) 3 then fill_rest cands st else st in
  take 3 (fst st).

(** The number of distinct [source] values among the candidates. *)
Definition distinct_sources (cands : list candidate) : nat :=
  size (list_to_set (map source cands) : gset string).

(** The state of the selector before the final slice. *)
Definition selector_state (cands : list candidate) : list candidate * gset string :=
  let st := fold_left (fill_bucket cands) ["market"; "policy"; "tech"] ([], ∅) in
  if Nat.ltb (length (fst st)) 3 then fill_rest cands st else st.

(** What the two loops of [pick_three_diverse] keep true of the picked
    items and the set of used sources. *)
Definition selection_inv (cands : list candidate)
    (st : list candidate * gset string) : Prop :=
  NoDup (map source (fst st)) ∧
  snd st = list_to_set (map source (fst st)) ∧
  (∀ x, x ∈ fst st → x ∈ cands).

(* ===================================================================== *)
(** * JSON values as Python objects                                       *)
(* ===================================================================== *)

(** [bool(v)]. *)
Definition truthy (v : json) : bool :=
  match v with
  | JNull => false
  | JBool b => b
  | JInt n => negb (n =? 0)%Z
  | JStr s => negb (PyStr.is_empty s)
  | JList l => match l with [] => false | _ => true end
  | JDict kv => match kv with [] => false | _ => true end
  end.

(** [d.get(k)] on the pairs of a dict; [None] stands for Python's [None]
    as well as for an absent key. *)
Fixpoint dict_get (k : string) (kv : list (string * json)) : option json :=
  match kv with
  | [] => None
  | (k', v) :: rest => if String.eqb k k' then Some v else dict_get k rest
  end.

(** [d[k] = v]: a present key keeps its place, a new one goes last. *)
Fixpoint dict_set (k : string) (v : json) (kv : list (string * json))
  : list (string * json) :=
  match kv with
  | [] => [(k, v)]
  | (k', v') :: rest =>
      if String.eqb k k' then (k, v) :: rest else (k', v') :: dict_set k v rest
  end.

(** [v.get(k)] for any value: only a dict has the method. *)
Definition json_get (k : string) (v : json) : outcome json :=
  match v with
  | JDict kv => Returned (match dict_get k kv with Some x => x | None => JNull end)
  | _ => Raised
  end.

(** The number a hashable numeric value stands for ([True == 1]). *)
Definition as_number (v : json) : option Z :=
  match v with
  | JInt n => Some n
  | JBool b => Some (if b then 1 else 0)%Z
  | _ => None
  end.

Definition as_string (v : json) : option string :=
  match v with
  | JStr s => Some s
  | _ => None
  end.

(** [{it.get("source") for it in items if it.get("source")}] as the list
    of the truthy values in order; [Raised] for an item without [get]
    ([AttributeError]) or a value that cannot be hashed ([TypeError]). *)
Fixpoint truthy_sources (l : list json) : outcome (list json) :=
  match l with
  | [] => Returned []
  | it :: rest =>
      match json_get "source" it with
      | Raised => Raised
      | Returned v =>
          if truthy v then
            match v with
            | JList _ | JDict _ => Raised
            | _ => match truthy_sources rest with
                   | Raised => Raised
                   | Returned vs => Returned (v :: vs)
                   end
            end
          else truthy_sources rest
      end
  end.

Fixpoint insert_string (x : string) (l : list string) : list string :=
  match l with
  | [] => [x]
  | y :: rest => if String.leb x y then x :: y :: rest else y :: insert_string x rest
  end.

(** [sorted(list(s))] for a set of strings. *)
Definition sorted_strings (s : gset string) : list string :=
  fold_right insert_string [] (elements s).

Fixpoint insert_number (x : Z * json) (l : list (Z * json)) : list (Z * json) :=
  match l with
  | [] => [x]
  | y :: rest =>
      if (fst x <=? fst y)%Z then x :: y :: rest else y :: insert_number x rest
  end.

(** A set of numbers keeps the first of several equal elements. *)
Fixpoint dedup_numbers (seen : gset Z) (l : list (Z * json)) : list (Z * json) :=
  match l with
  | [] => []
  | x :: rest =>
      if decide (fst x ∈ seen) then dedup_numbers seen rest
      else x :: dedup_numbers ({[ fst x ]} ∪ seen) rest
  end.

Fixpoint all_some {A} (l : list (option A)) : option (list A) :=
  match l with
  | [] => Some []
  | Some a :: rest => match all_some rest with
                      | Some r => Some (a :: r)
                      | None => None
                      end
  | None :: _ => None
  end.

(** [sorted(list(set(vs)))] for hashable values: strings are ordered among
    themselves and numbers among themselves; comparing a string with a
    number raises [TypeError]. *)
Definition sorted_set (vs : list json) : outcome (list json) :=
  match all_some (map as_string vs) with
  | Some strs => Returned (map JStr (sorted_strings (list_to_set strs)))
  | None =>
      match all_some (map (fun v => match as_number v with
                                    | Some n => Some (n, v)
                                    | None => None
                                    end) vs) with
      | Some nums => Returned (map snd (fold_right insert_number [] (dedup_numbers ∅ nums)))
      | None => Raised
      end
  end.

(* ===================================================================== *)
(** * The payload and [main]                                              *)
(* ===================================================================== *)

Definition FALLBACK_VERSION : string := "B1-RSS-Fallback-1.0".
Definition OPENAI_VERSION : string := "B1-RSS-OpenAI-1.0".

(** What [main] did: the files written, in order, and whether an exception
    of [write_json] ended the process. *)
Inductive run_result :=
| Completed (writes : list (string * json))
| Failed (writes : list (string * json)).

Section Main.
Import PyStr.
#[local] Open Scope string_scope.
Variable w : world.

Definition openai_structurize (picked_articles : list candidate) : M (outcome json) :=
  if is_empty (OPENAI_API_KEY w) then ret (Returned JNull)
  else
    date_iso ← now w;
    ret (openai_reply w picked_articles).

(** [mk(a)] of [fallback_payload]. *)
Definition mk (a : candidate) : json :=
  JDict
    [ ("impact_level", JStr "Medium");
      ("importance_score", JInt 60);
      ("score_breakdown",
        JDict [ ("market_impact", JInt 20); ("business_impact", JInt 20);
                ("japan_relevance", JInt 15); ("confidence", JInt 5) ]);
      ("title_ja", JStr (take_chars 30 (original_title a)));
      ("one_sentence", JStr (str_or (take_chars 60 (summary_raw a)) "要約なし"));
      ("fact_summary",
        JList [ JStr (str_or (take_chars 50 (summary_raw a)) "情報なし");
                JStr "一次情報はリンク参照" ]);
      ("implications",
        JList [ JStr "影響評価は後続改善で強化可能"; JStr "日本市場観点の追加余地あり" ]);
      ("outlook", JList [ JStr "次回更新で追記"; JStr "追加ソースで補強予定" ]);
      ("original_title", JStr (original_title a));
      ("original_url", JStr (original_url a));
      ("published_at", JStr (published_at a));
      ("source", JStr (source a)) ].

Definition fallback_payload (picked : list candidate) : M json :=
  d ← now w;
  let date_iso := date_isoformat d in
  g ← now w;
  ret (JDict
         [ ("date_iso", JStr date_iso);
           ("items", JList (map mk picked));
           ("generated_at", JStr (isoformat g));
           ("version", JStr FALLBACK_VERSION);
           ("sources",
             JList (map JStr (sorted_strings (list_to_set (map source picked))))) ]).

(** The acceptance test of [main] on the value [openai_structurize]
    returned: the pairs of the dict when it passes. *)
Definition accepted (structured : json) : option (list (string * json)) :=
  match structured with
  | JDict kv =>
      if truthy structured then
        match dict_get "items" kv with
        | Some (JList l) => if Nat.eqb (length l) 3 then Some kv else None
        | _ => None
        end
      else None
  | _ => None
  end.

Definition items_of (kv : list (string * json)) : list json :=
  match dict_get "items" kv with
  | Some (JList l) => l
  | _ => []
  end.

(** The [try] block of [main]: the payload it leaves. *)
Definition enrich (picked : list candidate) : M json :=
  r ← openai_structurize picked;
  match r with
  | Raised => fallback_payload picked
  | Returned structured =>
      match accepted structured with
      | None => fallback_payload picked
      | Some kv =>
          g ← now w;
          let kv := dict_set "generated_at" (JStr (isoformat g)) kv in
          let kv := dict_set "version" (JStr OPENAI_VERSION) kv in
          match truthy_sources (items_of kv) with
          | Raised => fallback_payload picked
          | Returned vs =>
              match sorted_set vs with
              | Raised => fallback_payload picked
              | Returned srcs => ret (JDict (dict_set "sources" (JList srcs) kv))
              end
          end
      end
  end.

(** [f"{date_iso}"]. *)
Definition format_value (v : json) : string :=
  match v with
  | JStr s => s
  | _ => py_str w v
  end.

Definition payload_get (k : string) (payload : json) : json :=
  match payload with
  | JDict kv => match dict_get k kv with Some v => v | None => JNull end
  | _ => JNull
  end.

(** [write_json(payload, path)], given the files written so far; [Raised]
    when the directories cannot be made or the file cannot be written. *)
Definition write_json (payload : json) (path : string)
    (files : list (string * json)) : outcome (list (string * json)) :=
  if can_write w path then Returned (files ++ [ (path, payload) ])%list else Raised.

Definition main : M run_result :=
  cands ← collect_candidates w;
  let picked := pick_three_diverse cands in
  payload ← enrich picked;
  date_iso ← (let v := payload_get "date_iso" payload in
              if truthy v then ret (format_value v)
              else d ← now w; ret (date_isoformat d));
  ret (match write_json payload OUT_PATH [] with
       | Raised => Failed []
       | Returned files =>
           match write_json payload (ARCHIVE_DIR ++ "/" ++ date_iso ++ ".json") files with
           | Raised => Failed files
           | Returned files => Completed files
           end
       end).

End Main.

(* ===================================================================== *)
(** * Definitions used to state the properties                            *)
(* ===================================================================== *)

(** The three keyword groups in the order in which the spec tests them. *)
Definition bucket_groups : list (string * list string) :=
  [ ("policy", policy_keywords); ("market", market_keywords); ("tech", tech_keywords) ].

(** The classifier in the words of the spec: the first group, in that
    order, one of whose keywords occurs in the text; [tech] when none does. *)
Definition first_matching_group (t : string) : string :=
  match find (fun g => existsb (fun k => PyStr.contains k t) (snd g)) bucket_groups with
  | Some g => fst g
  | None => "tech"
  end.

(** [k] occurs in [t]. *)
Definition occurs_in (k t : string) : Prop :=
  exists pre post : string, t = (pre ++ k ++ post)%string.

(** The payloads a run wrote. *)
Definition written (r : run_result) : list json :=
  match r with
  | Completed ws => map snd ws
  | Failed ws => map snd ws
  end.

(** The [items] of a payload are a list of [n] elements. *)
Definition items_length (payload : json) (n : nat) : Prop :=
  exists l, payload_get "items" payload = JList l /\ length l = n.

(** The payload of the LLM-structured variant: the response [kv] with the
    three keys that [main] assigns. *)
Definition adopted (kv : list (string * json)) (generated_at : string)
    (sources : list json) : json :=
  JDict (dict_set "sources" (JList sources)
           (dict_set "version" (JStr OPENAI_VERSION)
              (dict_set "generated_at" (JStr generated_at) kv))).

(** The [source] of an item when it is a non-empty string. *)
Definition item_source (it : json) : option string :=
  match it with
  | JDict ikv =>
      match dict_get "source" ikv with
      | Some (JStr s) => if PyStr.is_empty s then None else Some s
      | _ => None
      end
  | _ => None
  end.

(** An item that is a dict whose [source] is absent, falsy or a string. *)
Definition plain_item (it : json) : Prop :=
  exists ikv, it = JDict ikv /\
    match dict_get "source" ikv with
    | None => True
    | Some v => truthy v = false \/ exists s, v = JStr s
    end.

(** The archive path of a payload dated [date_iso]. *)
Definition archive_path (date_iso : string) : string :=
  ARCHIVE_DIR ++ "/" ++ date_iso ++ ".json".

(** The two calls of [write_json] at the end of [main]. *)
Definition write_both (w : world) (payload : json) (archive : string) : run_result :=
  if can_write w OUT_PATH then
    if can_write w archive
    then Completed [ (OUT_PATH, payload); (archive, payload) ]
    else Failed [ (OUT_PATH, payload) ]
  else Failed [].

(** A clock that always reads the first day of 2024. *)
Definition fixed_clock (n : nat) : datetime :=
  {| isoformat := "2024-01-01T00:00:00+00:00";
     date_isoformat := "2024-01-01";
     timestamp := Z.of_nat n |}.

Definition plain_entry (link title summary : string) : entry :=
  {| e_link := Some link; e_title := Some title; e_summary := Some summary;
     e_description := None; e_published := None; e_updated := None;
     e_created := None |}.

(** A world with the given feeds, credential and analysis reply, in which
    every file can be written. *)
Definition sample_world (feeds : string -> option (list entry)) (key : string)
    (reply : outcome json) : world :=
  {| fetch_feed := fun name _ => feeds name;
     date_parser_parse := fun _ => None;
     clock := fixed_clock;
     OPENAI_API_KEY := key;
     openai_reply := fun _ => reply;
     py_str := fun _ => "";
     can_write := fun _ => true;
     check_bracketed_netloc := fun _ => true;
     checknetloc_nfkc := fun _ => true |}.

(** Every feed fails and no credential is set. *)
Definition silent_world : world := sample_world (fun _ => None) "" Raised.

(** Three feeds with one relevant entry each. *)
Definition three_feeds (name : string) : option (list entry) :=
  if String.eqb name "OpenAI" then
    Some [ plain_entry "https://openai.com/a" "OpenAI raises prices amid GPU shortage"
             "pricing change for enterprise" ]
  else if String.eqb name "Anthropic" then
    Some [ plain_entry "https://www.anthropic.com/b" "New AI regulation" "a law" ]
  else if String.eqb name "AINOW" then
    Some [ plain_entry "https://ainow.ai/c" "An AI model release" "" ]
  else None.

(** A reply with only two items. *)
Definition two_items : list (string * json) :=
  [ ("date_iso", JStr "2024-01-01");
    ("items", JList [ JDict [ ("source", JStr "OpenAI") ];
                      JDict [ ("source", JStr "AINOW") ] ]) ].

(** A reply with three items that are numbers. *)
Definition numeric_items : list (string * json) :=
  [ ("date_iso", JStr "2024-01-01"); ("items", JList [ JInt 1; JInt 2; JInt 3 ]) ].

(** A reply with three items; none has the fields of the schema, one has no
    source and two have the same. *)
Definition loose_items : list (string * json) :=
  [ ("date_iso", JStr "2024-01-01");
    ("items", JList [ JDict [ ("source", JStr "b"); ("importance_score", JInt 1000) ];
                      JDict [ ("impact_level", JStr "Huge") ];
                      JDict [ ("source", JStr "b") ] ]);
    ("extra", JBool true) ].

(** The truthy string sources of the items, in order. *)
Definition string_sources (l : list json) : list string :=
  omap item_source l.

(** What the loops of [collect_candidates] keep true: the URLs of the
    collected items are pairwise distinct, and all of them are in
    [seen_urls]. *)
Definition collector_inv (st : collector) : Prop :=
  NoDup (map original_url (items st)) /\
  forall u, In u (map original_url (items st)) -> u ∈ seen_urls st.

Section PlainUrls.
Import PyStr Url.
#[local] Open Scope string_scope.

(** A printable ASCII character other than the space. *)
Definition graphic (c : ascii) : bool := in_range 33 126 c.

(** The characters of a plain host: printable and no space, none of
    [/ ? #] and no bracket. *)
Definition netloc_char (c : ascii) : bool :=
  graphic c && negb (netloc_delim c) &&
  negb (Ascii.eqb c "[") && negb (Ascii.eqb c "]").

(** The characters of a plain path: printable and no space, none of
    [? # ;]. *)
Definition path_char (c : ascii) : bool :=
  graphic c && negb (Ascii.eqb c "?") && negb (Ascii.eqb c "#") &&
  negb (Ascii.eqb c ";").

(** The names and values of the pairs are ASCII text. *)
Definition ascii_pairs (q : list (string * string)) : bool :=
  forallb (fun kv => all_chars is_ascii_char (fst kv) &&
                     all_chars is_ascii_char (snd kv)) q.

(** The characters [quote_plus] writes. *)
Definition quoted_char (c : ascii) : bool :=
  always_safe c || Ascii.eqb c "+" || Ascii.eqb c "%".

(** One field [name=value] as [urlencode] writes it. *)
Definition encode_field (kv : string * string) : string :=
  quote_plus (fst kv) ++ "=" ++ quote_plus (snd kv).

(** A scheme as [urlsplit] returns it when it finds one. *)
Definition valid_scheme (s : string) : Prop :=
  match s with
  | String c0 _ => is_ascii_char c0 && is_alpha c0 = true
  | EmptyString => False
  end /\
  all_chars scheme_char s = true /\ lower s = s.

(** The characters of an encoded query. *)
Definition query_char (c : ascii) : bool :=
  quoted_char c || Ascii.eqb c "=" || Ascii.eqb c "&".

(** [scheme://netloc/path?query], the query part left out when empty. *)
Definition plain_url (sch nl pa q : string) : string :=
  sch ++ "://" ++ nl ++ pa ++ (if is_empty q then "" else "?" ++ q).

(** The three parts that [normalize_url] rewrites: its scheme, its path
    and its query. *)
Definition norm_scheme (s : string) : string :=
  let s := str_or s "https" in
  if String.eqb s "http" then "https" else s.

Definition norm_path (pa : string) : string :=
  str_or (rstrip_chars (Ascii.eqb "/") pa) "/".

(** The filter on the query parameters: the key is no [utm_] key. *)
Definition keep_param (kv : string * string) : bool :=
  negb (startswith (lower (fst kv)) "utm_").

Definition norm_query (q : string) : string :=
  urlencode (List.filter keep_param (parse_qsl q)).

End PlainUrls.

(** ** Further definitions used to state the properties *)

Section Statements.
#[local] Open Scope string_scope.

(** The selector state [st'] extends [st]: the picked items grow at the
    end, the used sources grow. *)
Definition extends (st st' : list candidate * gset string) : Prop :=
  (exists ext, fst st' = (fst st ++ ext)%list) /\ snd st ⊆ snd st'.

(** Bucket [b] is covered in state [st]: an item of [b] is picked, or no
    candidate of [b] has a source that is still free. *)
Definition covered (cands : list candidate) (st : list candidate * gset string)
    (b : string) : Prop :=
  (exists m, m ∈ fst st /\ bucket m = b) \/
  (forall c, c ∈ cands -> bucket c = b -> source c ∈ snd st).

(** A candidate of the given source and bucket. *)
Definition sample_candidate (src b : string) : candidate :=
  {| source := src; original_title := "AI"; original_url := "https://example.com/" ++ src ++ "/" ++ b;
     published_at := ""; summary_raw := ""; bucket := b; priority := source_priority src |}.

(** The newest-first order of two candidates whose dates both parse. *)
Definition not_older (w : world) (a b : candidate) : Prop :=
  forall da db,
    date_parser_parse w (published_at a) = Some da ->
    date_parser_parse w (published_at b) = Some db ->
    (timestamp db <= timestamp da)%Z.

(** The order of the candidate list: by priority, then newest first. *)
Definition ranked_before (w : world) (a b : candidate) : Prop :=
  (priority a < priority b)%Z \/ (priority a = priority b /\ not_older w a b).

(** The key of a keyed item is the key of the item, as far as it does not
    depend on the clock. *)
Definition key_of (w : world) (p : (Z * Z) * candidate) : Prop :=
  fst (fst p) = priority (snd p) /\
  forall d, date_parser_parse w (published_at (snd p)) = Some d ->
            snd (fst p) = (- timestamp d)%Z.

(** [len(s)]: the number of characters (code points) of [s]. *)
Fixpoint char_count (s : string) : nat :=
  match s with
  | EmptyString => 0
  | String c r => (if PyStr.is_continuation c then 0 else 1) + char_count r
  end.

(** What [collect_candidates] makes of an entry of the feed [name]. *)
Definition built_from (w : world) (name : string) (c : candidate) : Prop :=
  source c = name /\
  priority c = source_priority name /\
  exists link title summary,
    normalize_url (check_bracketed_netloc w) (checknetloc_nfkc w) link
      = Some (original_url c) /\
    original_title c = strip_html title /\
    summary_raw c = PyStr.take_chars 1500 (strip_html summary) /\
    looks_ai_related (original_title c) (strip_html summary) = true /\
    bucket c = infer_bucket (original_title c) (strip_html summary).

(** [c] was built from an entry of one of the configured feeds. *)
Definition well_formed (w : world) (c : candidate) : Prop :=
  exists name, In name (map fst AI_TECH_RSS_FEEDS) /\ built_from w name c.

(** The number of candidates of the source [name]. *)
Definition count_source (name : string) (l : list candidate) : nat :=
  length (List.filter (fun c => String.eqb (source c) name) l).

(** A feed whose second entry has a link that [urlparse] rejects. *)
Definition broken_feed : list entry :=
  [ plain_entry "https://openai.com/a" "An AI model" "";
    plain_entry "https://[openai.com/b" "An AI agent" "";
    plain_entry "https://openai.com/c" "An AI chip" "" ].

(** The world [w] with another analysis collaborator. *)
Definition with_reply (w : world) (reply : list candidate -> outcome json) : world :=
  {| fetch_feed := fetch_feed w;
     date_parser_parse := date_parser_parse w;
     clock := clock w;
     OPENAI_API_KEY := OPENAI_API_KEY w;
     openai_reply := reply;
     py_str := py_str w;
     can_write := can_write w;
     check_bracketed_netloc := check_bracketed_netloc w;
     checknetloc_nfkc := checknetloc_nfkc w |}.

(** A reply whose date leads out of the archive directory. *)
Definition escaping_reply : list (string * json) :=
  [ ("date_iso", JStr "../index");
    ("items", JList [ JDict [ ("source", JStr "a") ]; JDict []; JDict [] ]) ].

(** The strings of [l] are in ascending order. *)
Definition ascending (l : list string) : Prop :=
  StronglySorted (fun a b => String.leb a b = true) l.

(** No character of [s] is the fragment mark. *)
Definition no_hash (s : string) : Prop :=
  PyStr.all_chars (fun d => negb (Ascii.eqb d "#")) s = true.

(** A character that is ASCII and no square bracket. *)
Definition plain_byte (c : ascii) : bool :=
  PyStr.is_ascii_char c && negb (Ascii.eqb c "[") && negb (Ascii.eqb c "]").





End Statements.

(* ===================================================================== *)
(** * Properties                                                          *)
(* ===================================================================== *)

(** ** The selector *)

Lemma selection_inv_init cands : selection_inv cands ([], ∅).
Proof.
  split; [constructor | split; [done |]].
  intros x Hx. by apply elem_of_nil in Hx.
Qed.

Lemma selection_inv_add cands st it :
  selection_inv cands st →
  source it ∉ snd st →
  it ∈ cands →
  selection_inv cands (fst st ++ [it], {[ source it ]} ∪ snd st).
Proof.
  intros (Hnd & Hused & Hsub) Hfresh Hin. unfold selection_inv. simpl.
  rewrite map_app. simpl. split; [| split].
  - apply NoDup_app. split; [done |]. split.
    + intros x Hx ->%list_elem_of_singleton.
      apply Hfresh. rewrite Hused. by apply elem_of_list_to_set.
    + apply NoDup_singleton.
  - rewrite Hused. apply set_eq. intros x.
    rewrite elem_of_union, elem_of_singleton, !elem_of_list_to_set, elem_of_app,
      list_elem_of_singleton. tauto.
  - intros x [Hx | ->%list_elem_of_singleton]%elem_of_app; auto.
Qed.

Lemma first_of_bucket_Some b used cands it :
  first_of_bucket b used cands = Some it →
  it ∈ cands ∧ (source it ∉ used) ∧ bucket it = b.
Proof.
  induction cands as [| c rest IH]; simpl; [done |].
  destruct (decide (source c ∈ used)) as [Hc | Hc].
  - intros H. destruct (IH H) as (? & ? & ?). split; [by right | done].
  - destruct (String.eqb (bucket c) b) eqn:Hb; simpl.
    + intros [= <-]. apply String.eqb_eq in Hb. split; [by left | done].
    + intros H. destruct (IH H) as (? & ? & ?). split; [by right | done].
Qed.

Lemma fill_bucket_inv cands st b :
  selection_inv cands st → selection_inv cands (fill_bucket cands st b).
Proof.
  intros Hinv. unfold fill_bucket.
  destruct (first_of_bucket b (snd st) cands) as [it |] eqn:Hf; [| done].
  apply first_of_bucket_Some in Hf as (Hin & Hfresh & _).
  by apply selection_inv_add.
Qed.

Lemma fill_bucket_length cands st b :
  (length (fst (fill_bucket cands st b)) ≤ S (length (fst st)))%nat.
Proof.
  unfold fill_bucket. destruct (first_of_bucket _ _ _); simpl; [| lia].
  rewrite length_app. simpl. lia.
Qed.

Lemma phase1_inv cands bs st :
  selection_inv cands st →
  selection_inv cands (fold_left (fill_bucket cands) bs st).
Proof.
  revert st. induction bs as [| b bs IH]; intros st Hinv; simpl; [done |].
  apply IH. by apply fill_bucket_inv.
Qed.

Lemma phase1_length cands bs st :
  (length (fst (fold_left (fill_bucket cands) bs st)) ≤ length bs + length (fst st))%nat.
Proof.
  revert st. induction bs as [| b bs IH]; intros st; simpl; [lia |].
  etrans; [apply IH |]. pose proof (fill_bucket_length cands st b). lia.
Qed.

(** The second loop either reaches three items or leaves no source of the
    scanned candidates unused. *)
Lemma fill_rest_spec all cands st :
  selection_inv all st →
  (∀ x, x ∈ cands → x ∈ all) →
  (length (fst st) < 3)%nat →
  let st' := fill_rest cands st in
  selection_inv all st' ∧
  snd st ⊆ snd st' ∧
  (length (fst st') = 3 ∨
   ((length (fst st') < 3)%nat ∧ ∀ x, x ∈ cands → source x ∈ snd st')).
Proof.
  revert st. induction cands as [| c rest IH]; intros st Hinv Hsub Hlen; simpl.
  - split; [done |]. split; [done |]. right. split; [done |].
    intros x Hx. by apply elem_of_nil in Hx.
  - assert (Hrest : ∀ x, x ∈ rest → x ∈ all) by (intros x Hx; apply Hsub; by right).
    destruct (decide (source c ∈ snd st)) as [Hc | Hc].
    + destruct (IH st Hinv Hrest Hlen) as (Hinv' & Hmono & Hend).
      split; [done |]. split; [done |].
      destruct Hend as [H3 | [Hlt Hall]]; [by left | right].
      split; [done |]. intros x [-> | Hx]%elem_of_cons; [by apply Hmono | by apply Hall].
    + assert (Hinv1 : selection_inv all (fst st ++ [c], {[ source c ]} ∪ snd st)).
      { apply selection_inv_add; [done | done |]. apply Hsub. by left. }
      destruct (Nat.eqb (length (fst st ++ [c])) 3) eqn:E.
      * apply Nat.eqb_eq in E. split; [done |]. split; [set_solver |]. by left.
      * apply Nat.eqb_neq in E.
        assert (Hlen1 : (length (fst (fst st ++ [c], {[ source c ]} ∪ snd st)) < 3)%nat).
        { simpl in *. rewrite length_app in *. simpl in *. lia. }
        destruct (IH _ Hinv1 Hrest Hlen1) as (Hinv' & Hmono & Hend).
        split; [done |]. split; [set_solver |].
        destruct Hend as [H3 | [Hlt Hall]]; [by left | right].
        split; [done |]. intros x [-> | Hx]%elem_of_cons; [| by apply Hall].
        apply Hmono. simpl. set_solver.
Qed.

Lemma pick_three_diverse_state cands :
  pick_three_diverse cands = take 3 (fst (selector_state cands)).
Proof. reflexivity. Qed.

Lemma selector_state_spec cands :
  let st := selector_state cands in
  selection_inv cands st ∧
  (length (fst st) = 3 ∨
   ((length (fst st) < 3)%nat ∧ ∀ x, x ∈ cands → source x ∈ snd st)).
Proof.
  unfold selector_state.
  set (st1 := fold_left (fill_bucket cands) ["market"; "policy"; "tech"] ([], ∅)).
  assert (Hinv1 : selection_inv cands st1) by apply phase1_inv, selection_inv_init.
  assert (Hlen1 : (length (fst st1) ≤ 3)%nat) by apply (phase1_length cands ["market"; "policy"; "tech"]).
  destruct (Nat.ltb (length (fst st1)) 3) eqn:E.
  - apply Nat.ltb_lt in E.
    destruct (fill_rest_spec cands cands st1 Hinv1 (λ x H, H) E) as (? & _ & ?). done.
  - apply Nat.ltb_ge in E. split; [done |]. left. lia.
Qed.

(** C2.  Whatever the candidate list, no two members of the selection
    returned by [pick_three_diverse] have the same [source]. *)
Theorem selection_sources_distinct (cands : list candidate) :
  NoDup (map source (pick_three_diverse cands)).
Proof.
  rewrite pick_three_diverse_state.
  destruct (selector_state_spec cands) as ((Hnd & _ & _) & _).
  rewrite <- (take_drop 3 (fst (selector_state cands))), map_app in Hnd.
  by apply NoDup_app in Hnd as (? & _ & _).
Qed.

(** The length of the selection, for the theorems on the selector and on
    the payload. *)
Lemma pick_three_diverse_length (cands : list candidate) :
  length (pick_three_diverse cands) = Nat.min 3 (distinct_sources cands).
Proof.
  rewrite pick_three_diverse_state.
  destruct (selector_state_spec cands) as ((Hnd & Hused & Hsub) & Hend).
  set (st := selector_state cands) in *.
  assert (Hsize : size (snd st) = length (fst st)).
  { rewrite Hused, size_list_to_set by done. apply length_map. }
  assert (Hincl : snd st ⊆ list_to_set (map source cands)).
  { rewrite Hused. intros s. rewrite !elem_of_list_to_set, !list_elem_of_In, !in_map_iff.
    intros (x & <- & Hx). exists x. split; [done |].
    apply list_elem_of_In, Hsub. by apply list_elem_of_In. }
  apply subseteq_size in Hincl. unfold distinct_sources.
  destruct Hend as [H3 | [Hlt Hall]].
  - rewrite length_take. lia.
  - assert (Heq : list_to_set (map source cands) ⊆ snd st).
    { intros s. rewrite elem_of_list_to_set, list_elem_of_In, in_map_iff.
      intros (x & <- & Hx). apply Hall. by apply list_elem_of_In. }
    apply subseteq_size in Heq. rewrite length_take. lia.
Qed.

(** C3.  The selection has [min(3, n)] members, [n] the number of distinct
    [source] values among the candidates. *)
Theorem selection_length (cands : list candidate) :
  length (pick_three_diverse cands) = Nat.min 3 (distinct_sources cands).
Proof. apply pick_three_diverse_length. Qed.

(** ** Strings *)
Section StringFacts.
Import PyStr.
#[local] Open Scope string_scope.

Lemma append_nil_l (b : string) : "" ++ b = b.
Proof. reflexivity. Qed.

Lemma append_cons (c : ascii) (a b : string) : String c a ++ b = String c (a ++ b).
Proof. reflexivity. Qed.

Lemma append_assoc (a b c : string) : (a ++ b) ++ c = a ++ (b ++ c).
Proof.
  induction a as [| x a IH]; [done |].
  rewrite !append_cons. by f_equal.
Qed.

Lemma append_nil_r (a : string) : a ++ "" = a.
Proof.
  induction a as [| x a IH]; [done |].
  rewrite append_cons. by f_equal.
Qed.

Lemma startswith_spec (t k : string) :
  startswith t k = true <-> exists post, t = k ++ post.
Proof.
  revert t. induction k as [| c k IH]; intros t; simpl.
  - split; [intros _; by exists t | done].
  - destruct t as [| d t].
    + split; [done | intros [post H]; by rewrite append_cons in H].
    + rewrite andb_true_iff, Ascii.eqb_eq, IH. split.
      * intros [-> [post ->]]. by exists post.
      * intros [post H]. rewrite append_cons in H. injection H as -> ->. eauto.
Qed.

Lemma contains_spec (k t : string) :
  contains k t = true <-> occurs_in k t.
Proof.
  unfold occurs_in. induction t as [| d t IH].
  - simpl. rewrite orb_false_r, startswith_spec. split.
    + intros [post H]. by exists "", post.
    + intros (pre & post & H). destruct pre as [| x pre].
      * by exists post.
      * by rewrite append_cons in H.
  - simpl. rewrite orb_true_iff, startswith_spec, IH. split.
    + intros [[post H] | (pre & post & H)].
      * by exists "", post.
      * exists (String d pre), post. by rewrite append_cons, H.
    + intros (pre & post & H). destruct pre as [| x pre].
      * left. by exists post.
      * right. exists pre, post. rewrite append_cons in H. by injection H.
Qed.
End StringFacts.

(** ** The bucket classifier *)

Lemma any_in_spec (keys : list string) (t : string) :
  any_in keys t = true <-> exists k, In k keys /\ occurs_in k t.
Proof.
  unfold any_in. rewrite existsb_exists.
  split; intros (k & Hk & H); exists k; (split; [done |]); by apply contains_spec.
Qed.

(** C4.  [infer_bucket] lowercases the title, a space and the summary, and
    returns the first of the groups policy, market, tech one of whose
    keywords occurs in that text, [tech] when none does; a text in which a
    policy keyword and a market keyword occur is classified [policy]. *)
Theorem infer_bucket_first_match (title summary : string) :
  let t := PyStr.lower (title ++ " " ++ summary)%string in
  infer_bucket title summary = first_matching_group t /\
  (forall kp km : string,
      In kp policy_keywords -> In km market_keywords ->
      occurs_in kp t -> occurs_in km t ->
      infer_bucket title summary = "policy").
Proof.
  intros t. split.
  - unfold infer_bucket, first_matching_group, bucket_groups, any_in.
    cbn [find fst snd]. fold t.
    destruct (existsb _ policy_keywords); [done |].
    destruct (existsb _ market_keywords); [done |].
    by destruct (existsb _ tech_keywords).
  - intros kp km Hkp _ Hp _.
    assert (H : any_in policy_keywords t = true) by (apply any_in_spec; eauto).
    unfold infer_bucket. fold t. by rewrite H.
Qed.

Lemma infer_bucket_first_match_witness :
  infer_bucket "EU AI Act hits startup funding" "" = "policy".
Proof.
  apply (proj2 (infer_bucket_first_match "EU AI Act hits startup funding" ""))
    with (kp := "ai act") (km := "funding").
  - vm_compute. tauto.
  - vm_compute. tauto.
  - apply contains_spec. vm_compute. reflexivity.
  - apply contains_spec. vm_compute. reflexivity.
Defined.

(** The scenario of the spec: the title is relevant, and [pricing] puts it
    in the market bucket before any tech keyword is looked at. *)
Example pricing_scenario :
  looks_ai_related "OpenAI raises prices amid GPU shortage"
                   "pricing change for enterprise" = true /\
  infer_bucket "OpenAI raises prices amid GPU shortage"
               "pricing change for enterprise" = "market".
Proof. split; vm_compute; reflexivity. Qed.

(** ** Dicts *)

Lemma dict_get_set_eq k v kv : dict_get k (dict_set k v kv) = Some v.
Proof.
  induction kv as [| [k' v'] kv IH]; simpl.
  - by rewrite String.eqb_refl.
  - destruct (String.eqb k k') eqn:E; simpl; rewrite ?String.eqb_refl, ?E; done.
Qed.

Lemma dict_get_set_ne k k' v kv :
  k <> k' -> dict_get k (dict_set k' v kv) = dict_get k kv.
Proof.
  intros Hne. induction kv as [| [k2 v2] kv IH]; simpl.
  - by apply String.eqb_neq in Hne as ->.
  - destruct (String.eqb k' k2) eqn:E; simpl.
    + apply String.eqb_eq in E as <-. by apply String.eqb_neq in Hne as ->.
    + by rewrite IH.
Qed.

Lemma adopted_get_other kv g srcs k :
  k <> "sources" -> k <> "version" -> k <> "generated_at" ->
  payload_get k (adopted kv g srcs) =
  match dict_get k kv with Some v => v | None => JNull end.
Proof.
  intros H1 H2 H3. unfold adopted, payload_get.
  by rewrite !dict_get_set_ne.
Qed.

Lemma adopted_version kv g srcs :
  payload_get "version" (adopted kv g srcs) = JStr OPENAI_VERSION.
Proof.
  unfold adopted, payload_get.
  by rewrite dict_get_set_ne, dict_get_set_eq.
Qed.

Lemma accepted_Some v kv :
  accepted v = Some kv ->
  v = JDict kv /\ exists l, dict_get "items" kv = Some (JList l) /\ length l = 3.
Proof.
  destruct v as [| | | | | kv']; simpl; try done.
  destruct kv' as [| p kv']; [done |].
  destruct (dict_get "items" (p :: kv')) as [[| | | | l |] |] eqn:E; try done.
  destruct (Nat.eqb (length l) 3) eqn:El; [| done].
  intros [= <-]. apply Nat.eqb_eq in El. eauto.
Qed.

Lemma accepted_items kv l :
  dict_get "items" kv = Some (JList l) -> length l = 3 ->
  accepted (JDict kv) = Some kv.
Proof.
  intros Hi Hl. unfold accepted. rewrite Hi, Hl. simpl.
  destruct kv; [done | done].
Qed.

Lemma accepted_wrong_count kv l :
  dict_get "items" kv = Some (JList l) -> length l <> 3 ->
  accepted (JDict kv) = None.
Proof.
  intros Hi Hl. unfold accepted. rewrite Hi.
  apply Nat.eqb_neq in Hl as ->. by destruct (truthy _).
Qed.

(** ** The fallback payload *)

Lemma fallback_payload_eq w picked t :
  fallback_payload w picked t =
  (JDict
     [ ("date_iso", JStr (date_isoformat (clock w t)));
       ("items", JList (map mk picked));
       ("generated_at", JStr (isoformat (clock w (S t))));
       ("version", JStr FALLBACK_VERSION);
       ("sources", JList (map JStr (sorted_strings (list_to_set (map source picked))))) ],
   S (S t)).
Proof. reflexivity. Qed.

(** C9.  The items of the fallback payload are the templated entries of
    the selected candidates: they, the version tag and the sources are the
    same in any two runs on the same selection, whatever the clock reads
    and whatever the rest of the world is. *)
Theorem fallback_items_deterministic (picked : list candidate)
    (w1 w2 : world) (t1 t2 : nat) :
  let p1 := fst (fallback_payload w1 picked t1) in
  let p2 := fst (fallback_payload w2 picked t2) in
  payload_get "items" p1 = JList (map mk picked) /\
  payload_get "items" p1 = payload_get "items" p2 /\
  payload_get "version" p1 = payload_get "version" p2 /\
  payload_get "sources" p1 = payload_get "sources" p2.
Proof. rewrite !fallback_payload_eq. simpl. done. Qed.

(** ** The [try] block of [main] *)

Lemma openai_structurize_eq w picked t :
  openai_structurize w picked t =
  if PyStr.is_empty (OPENAI_API_KEY w) then (Returned JNull, t)
  else (openai_reply w picked, S t).
Proof. unfold openai_structurize. by destruct (PyStr.is_empty _). Qed.

Lemma items_of_set k v kv :
  k <> "items" -> items_of (dict_set k v kv) = items_of kv.
Proof. intros H. unfold items_of. by rewrite dict_get_set_ne. Qed.

(** The [try] block, case by case. *)
Lemma enrich_eq w picked t :
  enrich w picked t =
  let '(r, t1) := openai_structurize w picked t in
  match r with
  | Raised => fallback_payload w picked t1
  | Returned structured =>
      match accepted structured with
      | None => fallback_payload w picked t1
      | Some kv =>
          match truthy_sources (items_of kv) with
          | Raised => fallback_payload w picked (S t1)
          | Returned vs =>
              match sorted_set vs with
              | Raised => fallback_payload w picked (S t1)
              | Returned srcs =>
                  (adopted kv (isoformat (clock w t1)) srcs, S t1)
              end
          end
      end
  end.
Proof.
  unfold enrich, mbind, M_bind.
  destruct (openai_structurize w picked t) as [[v |] t1]; [| done].
  destruct (accepted v) as [kv |]; [| done].
  unfold now. rewrite !items_of_set by done.
  destruct (truthy_sources (items_of kv)) as [vs |]; [| done].
  by destruct (sorted_set vs).
Qed.

(** The payload is the fallback payload or the response with its three
    keys assigned. *)
Lemma enrich_cases w picked t :
  (exists t', enrich w picked t = fallback_payload w picked t') \/
  (exists kv g srcs,
      accepted (JDict kv) = Some kv /\
      fst (enrich w picked t) = adopted kv g srcs).
Proof.
  rewrite enrich_eq.
  destruct (openai_structurize w picked t) as [[v |] t1]; [| left; by eexists].
  destruct (accepted v) as [kv |] eqn:Ha; [| left; by eexists].
  apply accepted_Some in Ha as Hv. destruct Hv as [-> _].
  destruct (truthy_sources _) as [vs |]; [| left; by eexists].
  destruct (sorted_set vs) as [srcs |]; [| left; by eexists].
  right. by exists kv, (isoformat (clock w t1)), srcs.
Qed.

(** When the acceptance test fails, the payload is the fallback payload. *)
Lemma enrich_not_accepted w picked t v :
  PyStr.is_empty (OPENAI_API_KEY w) = false ->
  openai_reply w picked = Returned v ->
  accepted v = None ->
  enrich w picked t = fallback_payload w picked (S t).
Proof.
  intros Hk Hr Ha.
  by rewrite enrich_eq, openai_structurize_eq, Hk, Hr, Ha.
Qed.

Lemma main_eq w t :
  main w t =
  let '(cands, t1) := collect_candidates w t in
  let '(payload, t2) := enrich w (pick_three_diverse cands) t1 in
  if truthy (payload_get "date_iso" payload)
  then (write_both w payload
          (archive_path (format_value w (payload_get "date_iso" payload))), t2)
  else (write_both w payload (archive_path (date_isoformat (clock w t2))), S t2).
Proof.
  assert (Hw : forall payload d,
             match write_json w payload OUT_PATH [] with
             | Raised => Failed []
             | Returned files =>
                 match write_json w payload (ARCHIVE_DIR ++ "/" ++ d ++ ".json")%string files with
                 | Raised => Failed files
                 | Returned files => Completed files
                 end
             end = write_both w payload (archive_path d)).
  { intros payload d. unfold write_json, write_both, archive_path.
    destruct (can_write w OUT_PATH); [| done].
    by destruct (can_write w _). }
  unfold main, mbind, M_bind.
  destruct (collect_candidates w t) as [cands t1].
  destruct (enrich w (pick_three_diverse cands) t1) as [payload t2].
  destruct (truthy (payload_get "date_iso" payload)); unfold ret, mret, M_ret, now;
    by rewrite Hw.
Qed.

Lemma written_write_both w payload path :
  Forall (eq payload) (written (write_both w payload path)).
Proof.
  unfold write_both.
  destruct (can_write w OUT_PATH); [destruct (can_write w path) |]; simpl;
    repeat constructor.
Qed.

(** Every payload that [main] writes is the one [enrich] left. *)
Lemma main_written w t :
  Forall (eq (fst (enrich w (pick_three_diverse (fst (collect_candidates w t)))
                     (snd (collect_candidates w t)))))
         (written (fst (main w t))).
Proof.
  rewrite main_eq. destruct (collect_candidates w t) as [cands t1]. simpl.
  destruct (enrich w (pick_three_diverse cands) t1) as [payload t2]. simpl.
  destruct (truthy _); apply written_write_both.
Qed.

(** C6, as the code has it.  Every payload that [main] writes carries
    either the fallback tag, and then its items are the templated entries
    of the selected candidates, [min(3, n)] of them for [n] distinct
    sources among the candidates; or the tag of the LLM variant, and then
    its items are a list of exactly three elements. *)
Theorem written_items (w : world) (t : nat) :
  Forall
    (fun p =>
       (payload_get "version" p = JStr FALLBACK_VERSION /\
        payload_get "items" p =
          JList (map mk (pick_three_diverse (fst (collect_candidates w t)))) /\
        items_length p (Nat.min 3 (distinct_sources (fst (collect_candidates w t)))))
       \/
       (payload_get "version" p = JStr OPENAI_VERSION /\ items_length p 3))
    (written (fst (main w t))).
Proof.
  eapply Forall_impl; [apply main_written |].
  intros p <-. simpl.
  set (cands := fst (collect_candidates w t)).
  set (t1 := snd (collect_candidates w t)).
  destruct (enrich_cases w (pick_three_diverse cands) t1)
    as [[t' ->] | (kv & g & srcs & Ha & ->)].
  - left. rewrite fallback_payload_eq. simpl. split; [done |]. split; [done |].
    eexists. split; [done |]. by rewrite length_map, pick_three_diverse_length.
  - right. split; [apply adopted_version |].
    apply accepted_Some in Ha as (_ & l & Hl & Hlen).
    exists l. split; [| done].
    by rewrite adopted_get_other, Hl.
Qed.

(** C6 fails as stated: when every feed fails, the payload written to both
    files has no item at all. *)
Lemma items_not_always_three :
  (exists p,
      fst (main silent_world 0) =
        Completed [ (OUT_PATH, p); (archive_path "2024-01-01", p) ] /\
      payload_get "items" p = JList []) /\
  ~ Forall (fun p => items_length p 3) (written (fst (main silent_world 0))).
Proof.
  split.
  - eexists. split; vm_compute; reflexivity.
  - intros H. apply Forall_inv in H. destruct H as (l & Hl & Hlen).
    vm_compute in Hl. injection Hl as <-. discriminate Hlen.
Qed.

(** [main] writes the payload that [enrich] left, to [OUT_PATH] and to an
    archive path. *)
Lemma main_writes_enriched w t :
  exists date_iso,
    fst (main w t) =
      write_both w
        (fst (enrich w (pick_three_diverse (fst (collect_candidates w t)))
                (snd (collect_candidates w t))))
        (archive_path date_iso).
Proof.
  rewrite main_eq. destruct (collect_candidates w t) as [cands t1]. simpl.
  destruct (enrich w (pick_three_diverse cands) t1) as [payload t2]. simpl.
  destruct (truthy _); by eexists.
Qed.

(** C7.  When the analysis collaborator returns a dict whose [items] list
    has not exactly three entries, the payload is the fallback payload of
    the selected candidates, with the fallback tag; [main] writes it to
    both files, and completes when both can be written. *)
Theorem wrong_item_count_falls_back (w : world) (t : nat)
    (kv : list (string * json)) (l : list json) :
  let cands := fst (collect_candidates w t) in
  let t1 := snd (collect_candidates w t) in
  let picked := pick_three_diverse cands in
  PyStr.is_empty (OPENAI_API_KEY w) = false ->
  openai_reply w picked = Returned (JDict kv) ->
  dict_get "items" kv = Some (JList l) ->
  length l <> 3 ->
  exists p archive,
    p = fst (fallback_payload w picked (S t1)) /\
    payload_get "version" p = JStr FALLBACK_VERSION /\
    payload_get "items" p = JList (map mk picked) /\
    fst (main w t) = write_both w p archive /\
    (can_write w OUT_PATH = true -> can_write w archive = true ->
     fst (main w t) = Completed [ (OUT_PATH, p); (archive, p) ]).
Proof.
  intros cands t1 picked Hk Hr Hi Hl.
  destruct (main_writes_enriched w t) as [d Hm].
  fold cands t1 picked in Hm.
  rewrite (enrich_not_accepted w picked t1 (JDict kv)) in Hm
    by eauto using accepted_wrong_count.
  exists (fst (fallback_payload w picked (S t1))), (archive_path d).
  split; [done |]. split; [done |]. split; [done |]. split; [done |].
  intros H1 H2. rewrite Hm. unfold write_both. by rewrite H1, H2.
Qed.

Lemma wrong_item_count_falls_back_witness :
  exists p archive,
    payload_get "version" p = JStr FALLBACK_VERSION /\
    items_length p 3 /\
    fst (main (sample_world three_feeds "sk-test" (Returned (JDict two_items))) 0) =
      Completed [ (OUT_PATH, p); (archive, p) ].
Proof.
  destruct (wrong_item_count_falls_back
              (sample_world three_feeds "sk-test" (Returned (JDict two_items))) 0
              two_items
              [ JDict [ ("source", JStr "OpenAI") ]; JDict [ ("source", JStr "AINOW") ] ])
    as (p & archive & Hp & Hv & Hi & _ & Hm).
  - reflexivity.
  - reflexivity.
  - reflexivity.
  - simpl. lia.
  - exists p, archive. split; [done |]. split.
    + eexists. split; [exact Hi |]. vm_compute. reflexivity.
    + apply Hm; reflexivity.
Defined.

(** ** The LLM-structured variant *)

Lemma truthy_sources_plain (l : list json) :
  Forall plain_item l ->
  truthy_sources l = Returned (map JStr (string_sources l)).
Proof.
  induction 1 as [| it l (ikv & -> & Hsrc) _ IH]; [done |].
  unfold string_sources in *. simpl. rewrite IH.
  destruct (dict_get "source" ikv) as [v |]; [| done].
  destruct Hsrc as [Hf | [s ->]].
  - rewrite Hf. destruct v as [| | | s | |]; try done.
    simpl in Hf. by apply negb_false_iff in Hf as ->.
  - simpl. by destruct (PyStr.is_empty s).
Qed.

Lemma all_some_strings (strs : list string) :
  all_some (map as_string (map JStr strs)) = Some strs.
Proof. induction strs as [| s strs IH]; simpl; [done | by rewrite IH]. Qed.

Lemma sorted_set_strings (strs : list string) :
  sorted_set (map JStr strs) =
  Returned (map JStr (sorted_strings (list_to_set strs))).
Proof. unfold sorted_set. by rewrite all_some_strings. Qed.

(** C10, as the code has it.  A response that is a dict whose [items] are
    three dicts, each with a [source] that is absent, falsy or a string, is
    adopted as the payload: [main] assigns [generated_at], [version] and
    [sources] (the sorted distinct non-empty sources of the items) and
    leaves every other key, the items included, as the response has it,
    whatever the items contain. *)
Theorem llm_response_adopted (w : world) (t : nat)
    (kv : list (string * json)) (l : list json) :
  let cands := fst (collect_candidates w t) in
  let t1 := snd (collect_candidates w t) in
  let picked := pick_three_diverse cands in
  PyStr.is_empty (OPENAI_API_KEY w) = false ->
  openai_reply w picked = Returned (JDict kv) ->
  dict_get "items" kv = Some (JList l) ->
  length l = 3 ->
  Forall plain_item l ->
  let p := adopted kv (isoformat (clock w (S t1)))
             (map JStr (sorted_strings (list_to_set (string_sources l)))) in
  fst (enrich w picked t1) = p /\
  Forall (eq p) (written (fst (main w t))) /\
  payload_get "items" p = JList l /\
  payload_get "version" p = JStr OPENAI_VERSION /\
  (forall k, k <> "sources" -> k <> "version" -> k <> "generated_at" ->
             payload_get k p = payload_get k (JDict kv)).
Proof.
  intros cands t1 picked Hk Hr Hi Hl Hplain p.
  assert (He : fst (enrich w picked t1) = p).
  { rewrite enrich_eq, openai_structurize_eq, Hk, Hr.
    rewrite (accepted_items kv l Hi Hl).
    unfold items_of. rewrite Hi.
    by rewrite (truthy_sources_plain l Hplain), sorted_set_strings. }
  split; [done |]. split.
  { rewrite <- He. apply main_written. }
  split; [| split].
  - unfold p. by rewrite adopted_get_other, Hi.
  - apply adopted_version.
  - intros k H1 H2 H3. unfold p. by rewrite adopted_get_other.
Qed.

Lemma llm_response_adopted_witness :
  written (fst (main (sample_world three_feeds "sk-test" (Returned (JDict loose_items))) 0)) =
  [ adopted loose_items "2024-01-01T00:00:00+00:00" [ JStr "b" ];
    adopted loose_items "2024-01-01T00:00:00+00:00" [ JStr "b" ] ] /\
  Forall (eq (adopted loose_items "2024-01-01T00:00:00+00:00" [ JStr "b" ]))
    (written (fst (main (sample_world three_feeds "sk-test" (Returned (JDict loose_items))) 0))).
Proof.
  split; [vm_compute; reflexivity |].
  refine (proj1 (proj2 (llm_response_adopted
            (sample_world three_feeds "sk-test" (Returned (JDict loose_items))) 0
            loose_items
            [ JDict [ ("source", JStr "b"); ("importance_score", JInt 1000) ];
              JDict [ ("impact_level", JStr "Huge") ];
              JDict [ ("source", JStr "b") ] ]
            eq_refl eq_refl eq_refl eq_refl _))).
  repeat constructor; eexists; (split; [reflexivity |]); simpl; eauto.
Defined.

(** C10 fails as stated: a response that is a dict whose [items] is a list
    of three numbers passes the test on its shape, and is not adopted; the
    run writes the fallback payload. *)
Lemma non_dict_items_not_adopted :
  accepted (JDict numeric_items) = Some numeric_items /\
  exists p archive,
    fst (main (sample_world three_feeds "sk-test" (Returned (JDict numeric_items))) 0) =
      Completed [ (OUT_PATH, p); (archive, p) ] /\
    payload_get "version" p = JStr FALLBACK_VERSION /\
    payload_get "items" p <> JList [ JInt 1; JInt 2; JInt 3 ].
Proof.
  split; [reflexivity |].
  eexists _, _. split; [vm_compute; reflexivity |].
  split; [reflexivity |]. discriminate.
Qed.

(** ** The collector *)

Lemma collector_inv_init : collector_inv {| items := []; seen_urls := ∅ |}.
Proof. split; [constructor | intros u []]. Qed.

Lemma collector_inv_add st c :
  collector_inv st ->
  original_url c ∉ seen_urls st ->
  collector_inv {| items := items st ++ [c];
                   seen_urls := {[ original_url c ]} ∪ seen_urls st |}.
Proof.
  intros [Hnd Hseen] Hfresh. unfold collector_inv. simpl.
  rewrite map_app. simpl. split.
  - apply NoDup_app. split; [done |]. split; [| apply NoDup_singleton].
    intros u Hu ->%list_elem_of_singleton.
    apply Hfresh, Hseen. by apply list_elem_of_In.
  - intros u [Hu | [<- | []]]%in_app_or; [| set_solver].
    apply elem_of_union_r. by apply Hseen.
Qed.

Lemma collect_entries_inv w name es st t :
  collector_inv st -> collector_inv (fst (collect_entries w name es st t)).
Proof.
  revert st t. induction es as [| e rest IH]; intros st t Hinv; [done |].
  simpl.
  destruct (truthy_str (e_link e)) as [link |]; [| by apply IH].
  destruct (truthy_str (e_title e)) as [title |]; [| by apply IH].
  destruct (normalize_url _ _ link) as [nurl |]; [| done].
  destruct (decide (nurl ∈ seen_urls st)) as [Hs | Hs]; [by apply IH |].
  destruct (negb (looks_ai_related _ _)); [by apply IH |].
  unfold mbind, M_bind.
  destruct (match pick_published w e with Some dt => ret dt | None => now w end t)
    as [published_dt t'].
  apply IH. by apply collector_inv_add.
Qed.

(** First seen wins: an entry whose normalized URL was seen before adds
    nothing. *)
Lemma collect_entries_skips_seen w name e rest st t link title nurl :
  truthy_str (e_link e) = Some link ->
  truthy_str (e_title e) = Some title ->
  normalize_url (check_bracketed_netloc w) (checknetloc_nfkc w) link = Some nurl ->
  nurl ∈ seen_urls st ->
  collect_entries w name (e :: rest) st t = collect_entries w name rest st t.
Proof.
  intros Hl Ht Hn Hs. simpl. rewrite Hl, Ht, Hn.
  by destruct (decide (nurl ∈ seen_urls st)).
Qed.

Lemma collect_feeds_inv w feeds st t :
  collector_inv st -> collector_inv (fst (collect_feeds w feeds st t)).
Proof.
  revert st t. induction feeds as [| [name url] rest IH]; intros st t Hinv; [done |].
  simpl. destruct (fetch_feed w name url) as [entries |]; [| by apply IH].
  unfold mbind, M_bind.
  pose proof (collect_entries_inv w name (take PER_FEED_LIMIT entries) st t Hinv) as H.
  destruct (collect_entries w name (take PER_FEED_LIMIT entries) st t) as [st' t'].
  by apply IH.
Qed.

Lemma with_keys_snd w l t : map snd (fst (with_keys w l t)) = l.
Proof.
  revert t. induction l as [| x l IH]; intros t; [done |].
  simpl. unfold mbind, M_bind.
  destruct (sort_key w x t) as [k t1].
  specialize (IH t1). destruct (with_keys w l t1) as [ks t2].
  simpl in *. by rewrite IH.
Qed.

Lemma insert_sorted_perm {A} (x : (Z * Z) * A) l :
  Permutation (insert_sorted x l) (x :: l).
Proof.
  induction l as [| y l IH]; simpl; [done |].
  destruct (key_le (fst x) (fst y)); [done |].
  rewrite IH. apply perm_swap.
Qed.

Lemma sort_by_key_perm {A} (l : list ((Z * Z) * A)) :
  Permutation (sort_by_key l) (map snd l).
Proof.
  unfold sort_by_key. apply Permutation_map.
  induction l as [| x l IH]; simpl; [done |].
  by rewrite insert_sorted_perm, IH.
Qed.

Lemma collect_candidates_perm w t :
  exists st keyed,
    collector_inv st /\
    map snd keyed = items st /\
    fst (collect_candidates w t) = take TOTAL_CANDIDATES (sort_by_key keyed).
Proof.
  unfold collect_candidates, mbind, M_bind.
  pose proof (collect_feeds_inv w AI_TECH_RSS_FEEDS _ t collector_inv_init) as Hinv.
  destruct (collect_feeds w AI_TECH_RSS_FEEDS _ t) as [st t1].
  pose proof (with_keys_snd w (items st) t1) as Hk.
  destruct (with_keys w (items st) t1) as [keyed t2].
  by exists st, keyed.
Qed.

(** C5.  Whatever the feeds return, the candidate list has no two entries
    with the same normalized URL and at most 80 entries. *)
Theorem candidates_unique_and_bounded (w : world) (t : nat) :
  NoDup (map original_url (fst (collect_candidates w t))) /\
  (length (fst (collect_candidates w t)) <= 80)%nat.
Proof.
  destruct (collect_candidates_perm w t) as (st & keyed & [Hnd _] & Hk & ->).
  split.
  - assert (Hs : NoDup (map original_url (sort_by_key keyed))).
    { rewrite (Permutation_map original_url (sort_by_key_perm keyed)).
      by rewrite Hk. }
    rewrite <- (take_drop TOTAL_CANDIDATES (sort_by_key keyed)), map_app in Hs.
    by apply NoDup_app in Hs as (? & _ & _).
  - rewrite length_take. unfold TOTAL_CANDIDATES. lia.
Qed.

Section UrlProperties.
Import PyStr Url.
#[local] Open Scope string_scope.

(** ** Characters *)

(** Facts about single characters are settled by running through the 256
    of them. *)
Ltac all_ascii c :=
  destruct c as [[] [] [] [] [] [] [] []]; vm_compute; try reflexivity;
  try discriminate; auto.

Lemma graphic_not_space c : graphic c = true -> is_space_char c = false.
Proof. all_ascii c. Qed.

Lemma graphic_not_c0 c : graphic c = true -> c0_control_or_space c = false.
Proof. all_ascii c. Qed.

Lemma graphic_not_unsafe c : graphic c = true -> unsafe_url_byte c = false.
Proof. all_ascii c. Qed.

Lemma graphic_ascii c : graphic c = true -> is_ascii_char c = true.
Proof. all_ascii c. Qed.

Lemma space_len_graphic c r : graphic c = true -> space_len (String c r) = 0.
Proof. all_ascii c. Qed.

Lemma lower_char_idem c : lower_char (lower_char c) = lower_char c.
Proof. all_ascii c. Qed.

Lemma netloc_char_lower c : netloc_char c = true -> netloc_char (lower_char c) = true.
Proof. all_ascii c. Qed.

Lemma scheme_char_lower c : scheme_char c = true -> scheme_char (lower_char c) = true.
Proof. all_ascii c. Qed.

Lemma alpha_lower c :
  is_ascii_char c && is_alpha c = true ->
  is_ascii_char (lower_char c) && is_alpha (lower_char c) = true.
Proof. all_ascii c. Qed.

Lemma scheme_char_graphic c : scheme_char c = true -> graphic c = true.
Proof. all_ascii c. Qed.

Lemma scheme_char_not_colon c : scheme_char c = true -> negb (Ascii.eqb c ":") = true.
Proof. all_ascii c. Qed.

Lemma netloc_char_graphic c : netloc_char c = true -> graphic c = true.
Proof. all_ascii c. Qed.

Lemma netloc_char_not_delim c : netloc_char c = true -> negb (netloc_delim c) = true.
Proof. all_ascii c. Qed.

Lemma netloc_char_not_open c : netloc_char c = true -> negb (Ascii.eqb c "[") = true.
Proof. all_ascii c. Qed.

Lemma netloc_char_not_close c : netloc_char c = true -> negb (Ascii.eqb c "]") = true.
Proof. all_ascii c. Qed.

Lemma path_char_graphic c : path_char c = true -> graphic c = true.
Proof. all_ascii c. Qed.

Lemma path_char_not_hash c : path_char c = true -> negb (Ascii.eqb c "#") = true.
Proof. all_ascii c. Qed.

Lemma path_char_not_question c : path_char c = true -> negb (Ascii.eqb c "?") = true.
Proof. all_ascii c. Qed.

Lemma path_char_not_semicolon c : path_char c = true -> negb (Ascii.eqb c ";") = true.
Proof. all_ascii c. Qed.

Lemma quoted_char_graphic c : quoted_char c = true -> graphic c = true.
Proof. all_ascii c. Qed.

Lemma quoted_char_not_hash c : quoted_char c = true -> negb (Ascii.eqb c "#") = true.
Proof. all_ascii c. Qed.

Lemma quoted_char_not_amp c : quoted_char c = true -> negb (Ascii.eqb c "&") = true.
Proof. all_ascii c. Qed.

Lemma quoted_char_not_equals c : quoted_char c = true -> negb (Ascii.eqb c "=") = true.
Proof. all_ascii c. Qed.

Lemma quote_byte_chars c : all_chars quoted_char (quote_byte c) = true.
Proof. all_ascii c. Qed.

(** Decoding what [quote_plus] wrote for one byte gives the byte back. *)
Lemma unquote_quote_byte c rest :
  unquote_to_bytes (replace_char "+" " " (quote_byte c) ++ rest) =
  String c (unquote_to_bytes rest).
Proof. destruct c as [[] [] [] [] [] [] [] []]; reflexivity. Qed.

Lemma replace_quote_byte_ascii c :
  all_chars is_ascii_char (replace_char "+" " " (quote_byte c)) = true.
Proof. all_ascii c. Qed.

Lemma quote_byte_nonempty c : is_empty (quote_byte c) = false.
Proof. all_ascii c. Qed.

(** ** Strings, continued *)

Lemma all_chars_app p a b :
  all_chars p (a ++ b) = all_chars p a && all_chars p b.
Proof.
  induction a as [| c a IH]; [done |].
  rewrite ?append_cons. simpl. by rewrite IH, andb_assoc.
Qed.

Lemma all_chars_impl (p q : ascii -> bool) s :
  (forall c, p c = true -> q c = true) ->
  all_chars p s = true -> all_chars q s = true.
Proof.
  intros Hpq. induction s as [| c s IH]; simpl; [done |].
  intros [Hc Hs]%andb_true_iff. by rewrite (Hpq c Hc), IH.
Qed.

Lemma has_char_none c s :
  all_chars (fun d => negb (Ascii.eqb d c)) s = true -> has_char c s = false.
Proof.
  induction s as [| d s IH]; simpl; [done |].
  intros [Hd Hs]%andb_true_iff. rewrite (IH Hs), orb_false_r.
  rewrite eqb_sym. by apply negb_true_iff.
Qed.

Lemma is_empty_app a b : is_empty (a ++ b) = is_empty a && is_empty b.
Proof. by destruct a. Qed.

Lemma is_empty_true s : is_empty s = true -> s = "".
Proof. by destruct s. Qed.

Lemma partition_found c a b :
  all_chars (fun d => negb (Ascii.eqb d c)) a = true ->
  partition c (a ++ String c b) = (a, Some b).
Proof.
  induction a as [| d a IH]; simpl.
  - intros _. by rewrite Ascii.eqb_refl.
  - intros [Hd Ha]%andb_true_iff. rewrite ?append_cons. simpl.
    apply negb_true_iff in Hd as ->. by rewrite (IH Ha).
Qed.

Lemma partition_none c a :
  all_chars (fun d => negb (Ascii.eqb d c)) a = true ->
  partition c a = (a, None).
Proof.
  induction a as [| d a IH]; simpl; [done |].
  intros [Hd Ha]%andb_true_iff.
  apply negb_true_iff in Hd as ->. by rewrite (IH Ha).
Qed.

Lemma split_once_found c a b :
  all_chars (fun d => negb (Ascii.eqb d c)) a = true ->
  split_once c (a ++ String c b) = (a, b).
Proof. intros H. unfold split_once. by rewrite partition_found. Qed.

Lemma split_once_none c a :
  all_chars (fun d => negb (Ascii.eqb d c)) a = true ->
  split_once c a = (a, "").
Proof. intros H. unfold split_once. by rewrite partition_none. Qed.

Lemma split_once_head c d r a b :
  split_once c (String d r) = (a, b) ->
  a = "" \/ (exists r', a = String d r') /\ Ascii.eqb d c = false.
Proof.
  unfold split_once. cbn [partition]. destruct (Ascii.eqb d c) eqn:E.
  - intros [= <- <-]. by left.
  - destruct (partition c r) as [a' [b' |]]; intros [= <- <-]; right; eauto.
Qed.

Lemma split_once_nil c a b : split_once c "" = (a, b) -> a = "".
Proof. by intros [= <- <-]. Qed.

Lemma span_until_found p a d b :
  all_chars (fun c => negb (p c)) a = true -> p d = true ->
  span_until p (a ++ String d b) = (a, String d b).
Proof.
  intros Ha Hd. induction a as [| c a IH]; simpl.
  - by rewrite Hd.
  - apply andb_true_iff in Ha as [Hc Ha]. rewrite ?append_cons. simpl.
    apply negb_true_iff in Hc as ->. by rewrite (IH Ha).
Qed.

Lemma lstrip_chars_head p c r : p c = false -> lstrip_chars p (String c r) = String c r.
Proof. intros H. simpl. by rewrite H. Qed.

Lemma remove_chars_none p s :
  all_chars (fun c => negb (p c)) s = true -> remove_chars p s = s.
Proof.
  induction s as [| c s IH]; simpl; [done |].
  intros [Hc Hs]%andb_true_iff. apply negb_true_iff in Hc as ->. by rewrite (IH Hs).
Qed.

Lemma rstrip_chars_not_all p s :
  all_chars p s = false -> all_chars p (rstrip_chars p s) = false.
Proof.
  induction s as [| c s IH]; [done |].
  intros H. cbn [rstrip_chars]. rewrite H. simpl in *.
  destruct (p c); [| done]. simpl in *. by apply IH.
Qed.

Lemma rstrip_chars_idem p s :
  rstrip_chars p (rstrip_chars p s) = rstrip_chars p s.
Proof.
  induction s as [| c s IH]; [done |].
  cbn [rstrip_chars]. destruct (all_chars p (String c s)) eqn:E; [done |].
  cbn [rstrip_chars]. rewrite IH.
  assert (H : all_chars p (String c (rstrip_chars p s)) = false).
  { simpl in *. destruct (p c); [| done]. simpl in *. by apply rstrip_chars_not_all. }
  by rewrite H.
Qed.

Lemma rstrip_chars_all (p q : ascii -> bool) s :
  all_chars q s = true -> all_chars q (rstrip_chars p s) = true.
Proof.
  induction s as [| c s IH]; [done |].
  intros H. cbn [rstrip_chars]. destruct (all_chars p (String c s)); [done |].
  simpl in *. apply andb_true_iff in H as [-> Hs]. by apply IH.
Qed.

Lemma rstrip_chars_head p c s :
  rstrip_chars p (String c s) = "" \/
  exists r, rstrip_chars p (String c s) = String c r.
Proof. cbn [rstrip_chars]. destruct (all_chars p (String c s)); eauto. Qed.

Lemma lower_idem s : lower (lower s) = lower s.
Proof. induction s as [| c s IH]; simpl; [done |]. by rewrite lower_char_idem, IH. Qed.

Lemma lower_all (q : ascii -> bool) s :
  (forall c, q c = true -> q (lower_char c) = true) ->
  all_chars q s = true -> all_chars q (lower s) = true.
Proof.
  intros Hq. induction s as [| c s IH]; simpl; [done |].
  intros [Hc Hs]%andb_true_iff. by rewrite (Hq c Hc), IH.
Qed.

Lemma is_empty_lower s : is_empty (lower s) = is_empty s.
Proof. by destruct s. Qed.

(** A text of printable characters has no whitespace to strip. *)
Lemma lstrip_graphic s : all_chars graphic s = true -> lstrip s = s.
Proof.
  destruct s as [| c s]; [done |]. simpl.
  intros [Hc _]%andb_true_iff. unfold lstrip. cbn [lstrip_from].
  by rewrite space_len_graphic.
Qed.

Lemma rstrip_graphic s : all_chars graphic s = true -> rstrip s = s.
Proof.
  induction s as [| c s IH]; [done |]. simpl.
  intros [Hc Hs]%andb_true_iff.
  unfold all_space. cbn [all_space_from]. rewrite space_len_graphic by done.
  by rewrite IH.
Qed.

Lemma strip_graphic s : all_chars graphic s = true -> strip s = s.
Proof. intros H. unfold strip. by rewrite lstrip_graphic, rstrip_graphic. Qed.

(** ** Percent-encoding round trip *)

Lemma replace_char_app a b x y :
  replace_char a b (x ++ y) = replace_char a b x ++ replace_char a b y.
Proof.
  induction x as [| c x IH]; [done |].
  rewrite append_cons. simpl. by rewrite IH.
Qed.

Lemma quote_plus_chars s : all_chars quoted_char (quote_plus s) = true.
Proof.
  induction s as [| c s IH]; [done |].
  cbn [quote_plus]. by rewrite all_chars_app, quote_byte_chars, IH.
Qed.

Lemma unquote_to_bytes_quote_plus s :
  unquote_to_bytes (replace_char "+" " " (quote_plus s)) = s.
Proof.
  induction s as [| c s IH]; [done |].
  cbn [quote_plus]. by rewrite replace_char_app, unquote_quote_byte, IH.
Qed.

Lemma replace_quote_plus_ascii s :
  all_chars is_ascii_char (replace_char "+" " " (quote_plus s)) = true.
Proof.
  induction s as [| c s IH]; [done |].
  cbn [quote_plus]. by rewrite replace_char_app, all_chars_app, replace_quote_byte_ascii, IH.
Qed.

Lemma utf8_replace_ascii s :
  all_chars is_ascii_char s = true -> utf8_replace s = s.
Proof.
  induction s as [| c s IH]; [done |]. simpl.
  intros [Hc Hs]%andb_true_iff. by rewrite Hc, IH.
Qed.

Lemma unquote_to_bytes_no_percent s :
  has_char "%" s = false -> unquote_to_bytes s = s.
Proof.
  induction s as [| c s IH]; [done |].
  intros H. cbn [has_char] in H. apply orb_false_iff in H as [Hc Hs].
  cbn [unquote_to_bytes]. rewrite eqb_sym in Hc. by rewrite Hc, IH.
Qed.

Lemma ascii_runs_ascii c s :
  all_chars is_ascii_char (String c s) = true ->
  ascii_runs (String c s) = [ (true, String c s) ].
Proof.
  revert c. induction s as [| d s IH]; intros c; simpl.
  - intros H. apply andb_true_iff in H as [-> _]. done.
  - intros [Hc Hs]%andb_true_iff. specialize (IH d Hs).
    cbn [ascii_runs] in IH |- *. rewrite IH. by rewrite Hc.
Qed.

Lemma unquote_ascii s :
  all_chars is_ascii_char s = true ->
  unquote s = utf8_replace (unquote_to_bytes s).
Proof.
  intros Hs. unfold unquote. destruct (has_char "%" s) eqn:E; simpl.
  - destruct s as [| c s]; [done |]. by rewrite ascii_runs_ascii.
  - by rewrite unquote_to_bytes_no_percent, utf8_replace_ascii.
Qed.

Lemma unquote_quote_plus s :
  all_chars is_ascii_char s = true ->
  unquote (replace_char "+" " " (quote_plus s)) = s.
Proof.
  intros Hs.
  rewrite unquote_ascii by apply replace_quote_plus_ascii.
  by rewrite unquote_to_bytes_quote_plus, utf8_replace_ascii.
Qed.

Lemma parse_field_encode kv :
  all_chars is_ascii_char (fst kv) && all_chars is_ascii_char (snd kv) = true ->
  parse_field (encode_field kv) = kv.
Proof.
  destruct kv as [k v]. simpl. intros [Hk Hv]%andb_true_iff.
  unfold parse_field, encode_field. simpl fst. simpl snd.
  change ("=" ++ quote_plus v) with (String "=" (quote_plus v)).
  rewrite split_once_found.
  - by rewrite !unquote_quote_plus.
  - eapply all_chars_impl; [apply quoted_char_not_equals | apply quote_plus_chars].
Qed.


Lemma encode_field_chars kv :
  all_chars (fun c => quoted_char c || Ascii.eqb c "=") (encode_field kv) = true.
Proof.
  unfold encode_field. rewrite !all_chars_app. simpl.
  assert (H : forall s, all_chars (fun c => quoted_char c || Ascii.eqb c "=")
                          (quote_plus s) = true).
  { intros s. eapply all_chars_impl; [| apply quote_plus_chars].
    intros c ->. done. }
  by rewrite !H.
Qed.

Lemma encode_field_nonempty kv : is_empty (encode_field kv) = false.
Proof.
  unfold encode_field. rewrite !is_empty_app. simpl. apply andb_false_r.
Qed.

Lemma split_found c a b :
  all_chars (fun d => negb (Ascii.eqb d c)) a = true ->
  split c (a ++ String c b) = a :: split c b.
Proof.
  induction a as [| d a IH]; simpl.
  - intros _. by rewrite Ascii.eqb_refl.
  - intros [Hd Ha]%andb_true_iff.
    apply negb_true_iff in Hd as ->. by rewrite (IH Ha).
Qed.

Lemma split_none c a :
  all_chars (fun d => negb (Ascii.eqb d c)) a = true -> split c a = [a].
Proof.
  induction a as [| d a IH]; simpl; [done |].
  intros [Hd Ha]%andb_true_iff.
  apply negb_true_iff in Hd as ->. by rewrite (IH Ha).
Qed.

Lemma split_join (l : list string) :
  l <> [] ->
  Forall (fun x => all_chars (fun d => negb (Ascii.eqb d "&")) x = true) l ->
  split "&" (join "&" l) = l.
Proof.
  induction l as [| x l IH]; [done |]. intros _ Hall.
  apply Forall_cons in Hall as [Hx Hl].
  destruct l as [| y l]; [by apply split_none |].
  change (join "&" (x :: y :: l)) with (x ++ String "&" (join "&" (y :: l))).
  rewrite split_found by done. by rewrite IH.
Qed.

Lemma join_nonempty sep x (l : list string) :
  is_empty x = false -> is_empty (join sep (x :: l)) = false.
Proof.
  intros Hx. destruct l as [| y l]; [done |].
  change (join sep (x :: y :: l)) with (x ++ sep ++ join sep (y :: l)).
  by rewrite is_empty_app, Hx.
Qed.

Lemma urlencode_fields q : urlencode q = join "&" (map encode_field q).
Proof. reflexivity. Qed.

(** [parse_qsl] reads back what [urlencode] wrote. *)
Lemma parse_qsl_urlencode q :
  ascii_pairs q = true -> parse_qsl (urlencode q) = q.
Proof.
  intros Hq. rewrite urlencode_fields. unfold parse_qsl.
  destruct q as [| kv q]; [done |].
  cbn [map]. rewrite join_nonempty by apply encode_field_nonempty.
  change (encode_field kv :: map encode_field q) with (map encode_field (kv :: q)).
  rewrite split_join.
  - rewrite List.forallb_filter_id.
    + rewrite map_map. unfold ascii_pairs in Hq.
      rewrite forallb_forall in Hq.
      rewrite <- (map_id (kv :: q)) at 2. apply map_ext_in.
      intros x Hx. apply parse_field_encode. by apply Hq.
    + apply forallb_forall. intros x (y & <- & _)%in_map_iff.
      by rewrite encode_field_nonempty.
  - done.
  - apply List.Forall_forall. intros x (y & <- & _)%in_map_iff.
    eapply all_chars_impl; [| apply encode_field_chars].
    intros c. clear. all_ascii c.
Qed.

Lemma urlencode_chars q :
  all_chars (fun c => quoted_char c || Ascii.eqb c "=" || Ascii.eqb c "&")
            (urlencode q) = true.
Proof.
  rewrite urlencode_fields.
  induction q as [| kv q IH]; [done |].
  assert (Hkv : all_chars (fun c => quoted_char c || Ascii.eqb c "=" || Ascii.eqb c "&")
                  (encode_field kv) = true).
  { eapply all_chars_impl; [| apply encode_field_chars]. intros c ->. done. }
  destruct q as [| kv' q]; [done |].
  change (join "&" (map encode_field (kv :: kv' :: q)))
    with (encode_field kv ++ "&" ++ join "&" (map encode_field (kv' :: q))).
  by rewrite !all_chars_app, Hkv, IH.
Qed.

(** ** What [urlparse] returns *)

Lemma split_scheme_valid url s rest :
  split_scheme url = Some (s, rest) -> valid_scheme s.
Proof.
  unfold split_scheme.
  destruct (partition ":" url) as [[| c0 pre] [r |]]; try done.
  destruct (is_ascii_char c0 && is_alpha c0 && all_chars scheme_char (String c0 pre))
    eqn:E; [| done].
  intros [= <- <-]. apply andb_true_iff in E as [Ha Hs].
  split; [| split].
  - simpl. by apply alpha_lower.
  - apply (lower_all scheme_char (String c0 pre)); [apply scheme_char_lower | done].
  - apply (lower_idem (String c0 pre)).
Qed.

Lemma span_until_rest p s a b :
  span_until p s = (a, b) ->
  b = "" \/ exists d r, b = String d r /\ p d = true.
Proof.
  revert a. induction s as [| c s IH]; intros a; simpl.
  - intros [= <- <-]. by left.
  - destruct (p c) eqn:E.
    + intros [= <- <-]. right. eauto.
    + destruct (span_until p s) as [a' b']. intros [= <- <-]. by eapply IH.
Qed.

Lemma splitparams_head c r a b :
  _splitparams (String c r) = (a, b) -> a = "" \/ exists a', a = String c a'.
Proof.
  cbn [_splitparams]. destruct (has_char "/" r).
  - destruct (_splitparams r) as [a' b']. intros [= <- <-]. eauto.
  - intros [-> | [[r' ->] _]]%split_once_head; eauto.
Qed.

Lemma delim_head_path d r a1 b1 a2 b2 :
  netloc_delim d = true ->
  split_once "#" (String d r) = (a1, b1) ->
  split_once "?" a1 = (a2, b2) ->
  a2 = "" \/ exists r', a2 = String "/" r'.
Proof.
  intros Hd [-> | [[r1 ->] H1]]%split_once_head.
  - intros ->%split_once_nil. by left.
  - intros [-> | [[r2 ->] H2]]%split_once_head; [by left | right].
    unfold netloc_delim in Hd. rewrite H1, H2, !orb_false_r in Hd.
    apply Ascii.eqb_eq in Hd as ->. eauto.
Qed.

(** The path of a URL with a host is empty or starts with a slash, and its
    scheme, when it has one, is well formed. *)
Lemma urlsplit_facts cb nf url sch nl pa q f :
  urlsplit cb nf url = Some (sch, nl, pa, q, f) ->
  (sch = "" \/ valid_scheme sch) /\
  (is_empty nl = false -> pa = "" \/ exists r, pa = String "/" r).
Proof.
  unfold urlsplit.
  set (url1 := remove_chars unsafe_url_byte (lstrip_chars c0_control_or_space url)).
  assert (Hs : forall s rest,
             match split_scheme url1 with
             | Some (s, rest) => (s, rest)
             | None => ("", url1)
             end = (s, rest) -> s = "" \/ valid_scheme s).
  { intros s rest. destruct (split_scheme url1) as [[s' rest'] |] eqn:Es.
    - intros [= <- <-]. right. by eapply split_scheme_valid.
    - intros [= <- <-]. by left. }
  destruct (match split_scheme url1 with
            | Some (s, rest) => (s, rest)
            | None => ("", url1)
            end) as [s rest] eqn:Esch.
  specialize (Hs s rest eq_refl).
  destruct (startswith rest "//").
  - destruct (span_until netloc_delim (drop 2 rest)) as [nl' rest2] eqn:En.
    destruct (split_once "#" rest2) as [a1 b1] eqn:E3.
    destruct (split_once "?" a1) as [a2 b2] eqn:E4.
    destruct (brackets_ok cb nl' && _checknetloc nf nl'); [| done].
    intros [= <- <- <- <- <-]. split; [done |]. intros _.
    apply span_until_rest in En as [-> | (d & r & -> & Hd)].
    + apply split_once_nil in E3 as ->. apply split_once_nil in E4 as ->. by left.
    + by eapply delim_head_path.
  - destruct (split_once "#" rest) as [a1 b1] eqn:E3.
    destruct (split_once "?" a1) as [a2 b2] eqn:E4.
    destruct (true && _checknetloc nf ""); [| done].
    intros [= <- <- <- <- <-]. split; [done |]. done.
Qed.

Lemma urlparse_facts cb nf url p :
  urlparse cb nf url = Some p ->
  (scheme p = "" \/ valid_scheme (scheme p)) /\
  (is_empty (netloc p) = false ->
   path p = "" \/ exists r, path p = String "/" r).
Proof.
  unfold urlparse.
  destruct (urlsplit cb nf url) as [[[[[sch nl] pa] q] f] |] eqn:E; [| done].
  apply urlsplit_facts in E as [Hs Hp].
  destruct (str_in sch uses_params && has_char ";" pa).
  - destruct (_splitparams pa) as [a b] eqn:E5. intros [= <-]. simpl.
    split; [done |]. intros Hn. destruct (Hp Hn) as [-> | [r ->]].
    + injection E5 as <- <-. by left.
    + apply splitparams_head in E5 as [-> | [a' ->]]; eauto.
  - intros [= <-]. simpl. split; [done |]. done.
Qed.

(** ** URLs in plain form *)

Lemma query_char_graphic c : query_char c = true -> graphic c = true.
Proof. all_ascii c. Qed.

Lemma query_char_not_hash c : query_char c = true -> negb (Ascii.eqb c "#") = true.
Proof. all_ascii c. Qed.

Lemma urlencode_query_chars q : all_chars query_char (urlencode q) = true.
Proof. apply urlencode_chars. Qed.

Lemma urlunparse_plain sch nl r q :
  is_empty sch = false -> is_empty nl = false ->
  urlunparse sch nl (String "/" r) "" q "" = plain_url sch nl (String "/" r) q.
Proof.
  intros Hs Hn. unfold urlunparse, urlunsplit, plain_url.
  rewrite Hs, Hn. cbn [is_empty negb orb andb startswith].
  rewrite Ascii.eqb_refl. cbn [negb andb].
  destruct (is_empty q); cbn [negb].
  - by rewrite append_nil_r.
  - by rewrite !append_assoc.
Qed.

Lemma plain_url_graphic sch nl pa q :
  all_chars graphic sch = true -> all_chars graphic nl = true ->
  all_chars graphic pa = true -> all_chars graphic q = true ->
  all_chars graphic (plain_url sch nl pa q) = true.
Proof.
  intros Hs Hn Hp Hq. unfold plain_url.
  rewrite !all_chars_app, Hs, Hn, Hp. simpl.
  destruct (is_empty q); [done |]. by rewrite all_chars_app, Hq.
Qed.

Lemma valid_scheme_split sch rest :
  valid_scheme sch -> split_scheme (sch ++ String ":" rest) = Some (sch, rest).
Proof.
  intros (Hhead & Hchars & Hlower). unfold split_scheme.
  rewrite partition_found
    by (eapply all_chars_impl; [apply scheme_char_not_colon | done]).
  destruct sch as [| c0 pre]; [done |].
  by rewrite Hhead, Hchars, Hlower.
Qed.

Lemma urlsplit_plain cb nf sch nl r q :
  valid_scheme sch ->
  is_empty nl = false ->
  all_chars netloc_char nl = true ->
  all_chars path_char (String "/" r) = true ->
  all_chars query_char q = true ->
  urlsplit cb nf (plain_url sch nl (String "/" r) q) =
  Some (sch, nl, String "/" r, q, "").
Proof.
  intros Hsch Hne Hnl Hpa Hq.
  assert (Hg : all_chars graphic (plain_url sch nl (String "/" r) q) = true).
  { destruct Hsch as (_ & Hc & _).
    apply plain_url_graphic.
    - by apply (all_chars_impl scheme_char graphic _ scheme_char_graphic).
    - by apply (all_chars_impl netloc_char graphic _ netloc_char_graphic).
    - by apply (all_chars_impl path_char graphic _ path_char_graphic).
    - by apply (all_chars_impl query_char graphic _ query_char_graphic). }
  unfold urlsplit. cbv zeta.
  assert (H1 : lstrip_chars c0_control_or_space (plain_url sch nl (String "/" r) q)
               = plain_url sch nl (String "/" r) q).
  { destruct (plain_url sch nl (String "/" r) q) as [| c s]; [done |].
    apply lstrip_chars_head, graphic_not_c0.
    simpl in Hg. by apply andb_true_iff in Hg as [-> _]. }
  rewrite H1.
  rewrite remove_chars_none.
  2: { eapply all_chars_impl; [| exact Hg]. intros c Hc.
       by rewrite graphic_not_unsafe. }
  unfold plain_url at 1.
  change ("://" ++ nl ++ String "/" r ++ (if is_empty q then "" else "?" ++ q))
    with (String ":" ("//" ++ nl ++ String "/" r ++ (if is_empty q then "" else "?" ++ q))).
  rewrite (valid_scheme_split sch _ Hsch).
  change (startswith ("//" ++ nl ++ String "/" r ++ (if is_empty q then "" else "?" ++ q)) "//")
    with true.
  cbv iota.
  change (drop 2 ("//" ++ nl ++ String "/" r ++ (if is_empty q then "" else "?" ++ q)))
    with (nl ++ String "/" r ++ (if is_empty q then "" else "?" ++ q)).
  change (String "/" r ++ (if is_empty q then "" else "?" ++ q))
    with (String "/" (r ++ (if is_empty q then "" else "?" ++ q))).
  rewrite span_until_found.
  2: { eapply all_chars_impl; [apply netloc_char_not_delim | done]. }
  2: { reflexivity. }
  assert (Hb : brackets_ok cb nl = true).
  { unfold brackets_ok.
    rewrite (has_char_none "[" nl), (has_char_none "]" nl); [done | |].
    - eapply all_chars_impl; [apply netloc_char_not_close | done].
    - eapply all_chars_impl; [apply netloc_char_not_open | done]. }
  assert (Hck : _checknetloc nf nl = true).
  { unfold _checknetloc.
    assert (all_chars is_ascii_char nl = true) as ->; [| by rewrite orb_true_r].
    eapply all_chars_impl; [| exact Hnl].
    intros c Hc. by apply graphic_ascii, netloc_char_graphic. }
  rewrite Hb, Hck.
  change (String "/" (r ++ (if is_empty q then "" else "?" ++ q)))
    with (String "/" r ++ (if is_empty q then "" else "?" ++ q)).
  assert (Hq' : all_chars (fun d => negb (Ascii.eqb d "#")) q = true).
  { eapply all_chars_impl; [apply query_char_not_hash | done]. }
  assert (Hp1 : all_chars (fun d => negb (Ascii.eqb d "#")) (String "/" r) = true).
  { eapply all_chars_impl; [apply path_char_not_hash | done]. }
  assert (Hp2 : all_chars (fun d => negb (Ascii.eqb d "?")) (String "/" r) = true).
  { eapply all_chars_impl; [apply path_char_not_question | done]. }
  destruct (is_empty q) eqn:Eq.
  - apply is_empty_true in Eq as ->. rewrite append_nil_r.
    rewrite split_once_none by done. by rewrite split_once_none.
  - rewrite split_once_none.
    2: { rewrite all_chars_app, Hp1.
         change ("?" ++ q) with (String "?" q). simpl. by rewrite Hq'. }
    change ("?" ++ q) with (String "?" q).
    by rewrite split_once_found.
Qed.

Lemma urlparse_plain cb nf sch nl r q :
  valid_scheme sch ->
  is_empty nl = false ->
  all_chars netloc_char nl = true ->
  all_chars path_char (String "/" r) = true ->
  all_chars query_char q = true ->
  urlparse cb nf (plain_url sch nl (String "/" r) q) =
  Some {| scheme := sch; netloc := nl; path := String "/" r; params := "";
          query := q; fragment := "" |}.
Proof.
  intros Hsch Hne Hnl Hpa Hq. unfold urlparse.
  rewrite urlsplit_plain by done.
  rewrite (has_char_none ";" (String "/" r)).
  - by rewrite andb_false_r.
  - eapply all_chars_impl; [apply path_char_not_semicolon | done].
Qed.

(** ** The three normalisations of [normalize_url] *)

Lemma normalize_url_eq cb nf u :
  normalize_url cb nf u =
  match urlparse cb nf (strip u) with
  | None => None
  | Some p =>
      Some (urlunparse (norm_scheme (scheme p)) (lower (netloc p))
              (norm_path (path p)) (params p) (norm_query (query p)) "")
  end.
Proof. reflexivity. Qed.

Lemma norm_scheme_nonempty s : is_empty (norm_scheme s) = false.
Proof.
  unfold norm_scheme, str_or. destruct s as [| c s]; [done |].
  cbn [is_empty]. by destruct (String.eqb (String c s) "http").
Qed.

Lemma norm_scheme_idem s : norm_scheme (norm_scheme s) = norm_scheme s.
Proof.
  destruct s as [| c s]; [done |].
  unfold norm_scheme, str_or. cbn [is_empty].
  destruct (String.eqb (String c s) "http") eqn:E; [done |].
  cbn [is_empty]. by rewrite E.
Qed.

Lemma norm_scheme_valid s :
  s = "" \/ valid_scheme s -> valid_scheme (norm_scheme s).
Proof.
  assert (Hhttps : valid_scheme "https") by (by repeat split).
  intros [-> | Hv]; [done |].
  unfold norm_scheme, str_or. destruct s as [| c s]; [done |].
  cbn [is_empty]. by destruct (String.eqb (String c s) "http").
Qed.

Lemma norm_path_head pa :
  pa = "" \/ (exists r, pa = String "/" r) ->
  exists r, norm_path pa = String "/" r.
Proof.
  unfold norm_path, str_or. intros [-> | [r ->]]; [by exists "" |].
  destruct (rstrip_chars_head (Ascii.eqb "/") "/" r) as [-> | [r' ->]]; eauto.
Qed.

Lemma norm_path_idem pa : norm_path (norm_path pa) = norm_path pa.
Proof.
  unfold norm_path, str_or.
  destruct (rstrip_chars (Ascii.eqb "/") pa) as [| c r] eqn:E; [done |].
  cbn [is_empty]. by rewrite <- E, rstrip_chars_idem, E.
Qed.

Lemma norm_path_chars pa :
  all_chars path_char pa = true -> all_chars path_char (norm_path pa) = true.
Proof.
  intros H. unfold norm_path, str_or.
  pose proof (rstrip_chars_all (Ascii.eqb "/") path_char pa H) as H'.
  by destruct (rstrip_chars (Ascii.eqb "/") pa).
Qed.

Lemma ascii_pairs_filter f q :
  ascii_pairs q = true -> ascii_pairs (List.filter f q) = true.
Proof.
  unfold ascii_pairs. rewrite !forallb_forall.
  intros H x [Hx _]%filter_In. by apply H.
Qed.

Lemma filter_idem {A} (f : A -> bool) l :
  List.filter f (List.filter f l) = List.filter f l.
Proof.
  apply List.forallb_filter_id, forallb_forall.
  by intros x [_ Hx]%filter_In.
Qed.

Lemma norm_query_idem q :
  ascii_pairs (parse_qsl q) = true -> norm_query (norm_query q) = norm_query q.
Proof.
  intros H. unfold norm_query.
  rewrite parse_qsl_urlencode by by apply ascii_pairs_filter.
  by rewrite filter_idem.
Qed.

(** A URL in plain form whose parts are already normalised is a fixed
    point of [normalize_url]. *)
Lemma normalize_plain_fixed cb nf sch nl pa q :
  valid_scheme sch -> norm_scheme sch = sch ->
  is_empty nl = false -> all_chars netloc_char nl = true -> lower nl = nl ->
  (exists r, pa = String "/" r) -> all_chars path_char pa = true ->
  norm_path pa = pa ->
  all_chars query_char q = true -> norm_query q = q ->
  normalize_url cb nf (plain_url sch nl pa q) = Some (plain_url sch nl pa q).
Proof.
  intros Hsch Hs Hne Hnl Hl [r ->] Hpa Hp Hq Hqq.
  rewrite normalize_url_eq.
  rewrite strip_graphic.
  2: { destruct Hsch as (_ & Hc & _). apply plain_url_graphic.
       - by apply (all_chars_impl scheme_char graphic _ scheme_char_graphic).
       - by apply (all_chars_impl netloc_char graphic _ netloc_char_graphic).
       - by apply (all_chars_impl path_char graphic _ path_char_graphic).
       - by apply (all_chars_impl query_char graphic _ query_char_graphic). }
  rewrite urlparse_plain by done. cbn [scheme netloc path params query].
  rewrite Hs, Hl, Hp, Hqq.
  rewrite urlunparse_plain; [done | | done].
  rewrite <- Hs. apply norm_scheme_nonempty.
Qed.

(** C8, as the code has it.  [normalize_url] is idempotent on every URL
    that parses with a non-empty host of printable ASCII characters other
    than the space and the brackets, a path of printable ASCII characters
    other than the space and [;], no params, and a query whose decoded
    names and values are ASCII text. *)
Theorem normalize_url_idempotent_plain
    (cb nf : string -> bool) (u : string) (p : ParseResult) :
  urlparse cb nf (strip u) = Some p ->
  is_empty (netloc p) = false ->
  all_chars netloc_char (netloc p) = true ->
  all_chars path_char (path p) = true ->
  params p = "" ->
  ascii_pairs (parse_qsl (query p)) = true ->
  exists v, normalize_url cb nf u = Some v /\ normalize_url cb nf v = Some v.
Proof.
  intros Hparse Hne Hnl Hpa Hpar Hq.
  destruct (urlparse_facts cb nf _ p Hparse) as [Hsch Hhead].
  specialize (Hhead Hne).
  destruct (norm_path_head _ Hhead) as [r Hr].
  exists (plain_url (norm_scheme (scheme p)) (lower (netloc p))
            (norm_path (path p)) (norm_query (query p))).
  split.
  - rewrite normalize_url_eq, Hparse, Hpar, Hr.
    rewrite urlunparse_plain; [done | apply norm_scheme_nonempty |].
    by rewrite is_empty_lower.
  - apply normalize_plain_fixed.
    + by apply norm_scheme_valid.
    + apply norm_scheme_idem.
    + by rewrite is_empty_lower.
    + apply lower_all; [apply netloc_char_lower | done].
    + apply lower_idem.
    + eauto.
    + by apply norm_path_chars.
    + apply norm_path_idem.
    + apply urlencode_query_chars.
    + by apply norm_query_idem.
Qed.

Lemma normalize_url_idempotent_plain_witness :
  normalize_url (fun _ => true) (fun _ => true)
    "http://Example.com/Post/?utm_campaign=x&b=1 2" =
    Some "https://example.com/Post?b=1+2" /\
  normalize_url (fun _ => true) (fun _ => true) "https://example.com/Post?b=1+2" =
    Some "https://example.com/Post?b=1+2".
Proof.
  destruct (normalize_url_idempotent_plain (fun _ => true) (fun _ => true)
              "http://Example.com/Post/?utm_campaign=x&b=1 2"
              {| scheme := "http"; netloc := "Example.com"; path := "/Post/";
                 params := ""; query := "utm_campaign=x&b=1 2"; fragment := "" |})
    as (v & Hv & Hvv); try (vm_compute; reflexivity).
  assert (v = "https://example.com/Post?b=1+2") as ->.
  { vm_compute in Hv. by injection Hv. }
  split; [by vm_compute | exact Hvv].
Defined.

(** C8 fails as stated: a space that ends the path is kept by the first
    normalisation, where a fragment follows it, and stripped by the second.
    So does it fail where the slash that the first normalisation strips
    uncovers a [;] in the last segment, and where an empty host lets the
    path become the host. *)
Lemma normalize_url_not_idempotent :
  (normalize_url (fun _ => true) (fun _ => true) "https://example.com/a/ #f" =
     Some "https://example.com/a/ " /\
   normalize_url (fun _ => true) (fun _ => true) "https://example.com/a/ " =
     Some "https://example.com/a") /\
  (normalize_url (fun _ => true) (fun _ => true) "https://example.com/a/;b/" =
     Some "https://example.com/a/;b" /\
   normalize_url (fun _ => true) (fun _ => true) "https://example.com/a/;b" =
     Some "https://example.com/a;b") /\
  (normalize_url (fun _ => true) (fun _ => true) "https:////example.com" =
     Some "https://example.com" /\
   normalize_url (fun _ => true) (fun _ => true) "https://example.com" =
     Some "https://example.com/").
Proof. repeat split; vm_compute; reflexivity. Qed.


(** ** The URLs of the specification *)

(** C1, as the code has it.  The first URL of each pair of the spec gets
    the key the spec names; the second keeps the case of its query key
    ([B]) and the first of the other pair the case of its path ([/Post]),
    so the keys of each pair differ.  The case of the host, a trailing
    slash, [utm_] parameters and [http] against [https] yield no distinct
    keys: the last two equations. *)
Theorem normalize_url_examples (cb nf : string -> bool) :
  normalize_url cb nf "https://example.com/a?utm_source=x&b=1" =
    Some "https://example.com/a?b=1" /\
  normalize_url cb nf "https://example.com/a/?B=1" =
    Some "https://example.com/a?B=1" /\
  normalize_url cb nf "http://Example.com/Post/?utm_campaign=x" =
    Some "https://example.com/Post" /\
  normalize_url cb nf "https://example.com/post" =
    Some "https://example.com/post" /\
  normalize_url cb nf "https://example.com/a?utm_source=x&b=1" =
    normalize_url cb nf "https://Example.com/a/?b=1" /\
  normalize_url cb nf "http://Example.com/Post/?utm_campaign=x" =
    normalize_url cb nf "https://example.com/Post".
Proof. repeat split; vm_compute; reflexivity. Qed.

(** C1 fails as stated: the second URL does not get the key
    [https://example.com/a?b=1], and the two URLs of the scenario do not
    get the same key. *)
Lemma normalize_url_keeps_case :
  normalize_url (fun _ => true) (fun _ => true) "https://example.com/a/?B=1" <>
    Some "https://example.com/a?b=1" /\
  normalize_url (fun _ => true) (fun _ => true) "http://Example.com/Post/?utm_campaign=x" <>
    normalize_url (fun _ => true) (fun _ => true) "https://example.com/post".
Proof. split; vm_compute; discriminate. Qed.

End UrlProperties.

(* ===================================================================== *)
(** * Further properties                                                  *)
(* ===================================================================== *)

Section MoreProperties.
#[local] Open Scope string_scope.

(** ** The selector: coverage of the buckets *)

Lemma extends_refl st : extends st st.
Proof. split; [exists []; by rewrite app_nil_r | done]. Qed.

Lemma extends_trans st1 st2 st3 :
  extends st1 st2 -> extends st2 st3 -> extends st1 st3.
Proof.
  intros [[e1 H1] S1] [[e2 H2] S2]. split; [| set_solver].
  exists (e1 ++ e2)%list. by rewrite H2, H1, app_assoc.
Qed.

Lemma extends_add st it :
  extends st ((fst st ++ [it])%list, {[ source it ]} ∪ snd st).
Proof. split; [by exists [it] | set_solver]. Qed.

Lemma first_of_bucket_None b used cands :
  first_of_bucket b used cands = None ->
  forall c, c ∈ cands -> bucket c = b -> source c ∈ used.
Proof.
  induction cands as [| x rest IH]; simpl.
  - intros _ c Hc. by apply elem_of_nil in Hc.
  - destruct (decide (source x ∈ used)) as [Hx | Hx].
    + intros H c [-> | Hc]%elem_of_cons Hb; [done | by apply IH].
    + destruct (String.eqb (bucket x) b) eqn:E; simpl; [done |].
      apply String.eqb_neq in E.
      intros H c [-> | Hc]%elem_of_cons Hb; [done | by apply IH].
Qed.

Lemma fill_bucket_extends cands st b : extends st (fill_bucket cands st b).
Proof.
  unfold fill_bucket. destruct (first_of_bucket _ _ _);
    [apply extends_add | apply extends_refl].
Qed.

Lemma fill_bucket_covered cands st b : covered cands (fill_bucket cands st b) b.
Proof.
  unfold fill_bucket, covered.
  destruct (first_of_bucket b (snd st) cands) as [it |] eqn:E.
  - left. exists it. apply first_of_bucket_Some in E as (_ & _ & Hb).
    split; [| done]. simpl. apply elem_of_app. right. by left.
  - right. by apply first_of_bucket_None.
Qed.

Lemma covered_extends cands st st' b :
  extends st st' -> covered cands st b -> covered cands st' b.
Proof.
  intros [[ext He] Hs] [(m & Hm & Hb) | Hall]; [left | right].
  - exists m. split; [| done]. rewrite He. apply elem_of_app. by left.
  - intros c Hc Hbc. by apply Hs, Hall.
Qed.

Lemma fill_rest_extends cands st : extends st (fill_rest cands st).
Proof.
  revert st. induction cands as [| c rest IH]; intros st; simpl;
    [apply extends_refl |].
  destruct (decide (source c ∈ snd st)); [apply IH |].
  destruct (Nat.eqb _ 3); [apply extends_add |].
  eapply extends_trans; [apply extends_add | apply IH].
Qed.

Lemma phase1_extends cands bs st :
  extends st (fold_left (fill_bucket cands) bs st).
Proof.
  revert st. induction bs as [| b bs IH]; intros st; simpl; [apply extends_refl |].
  eapply extends_trans; [apply fill_bucket_extends | apply IH].
Qed.

Lemma phase1_covered cands bs st b :
  In b bs -> covered cands (fold_left (fill_bucket cands) bs st) b.
Proof.
  revert st. induction bs as [| b' bs IH]; intros st; simpl; [done |].
  intros [-> | Hb]; [| by apply IH].
  eapply covered_extends; [apply phase1_extends | apply fill_bucket_covered].
Qed.

Lemma selector_state_covered cands b :
  In b ["market"; "policy"; "tech"] -> covered cands (selector_state cands) b.
Proof.
  intros Hb. unfold selector_state.
  destruct (Nat.ltb _ 3).
  - eapply covered_extends; [apply fill_rest_extends | by apply phase1_covered].
  - by apply phase1_covered.
Qed.

(** The final slice cuts nothing: the loops never pick more than three. *)
Lemma pick_three_diverse_all cands :
  pick_three_diverse cands = fst (selector_state cands).
Proof.
  rewrite pick_three_diverse_state.
  destruct (selector_state_spec cands) as [_ [H | [H _]]];
    apply firstn_all2; lia.
Qed.

(** X1.  Every bucket is represented in the selection unless each of its
    candidates comes from a source that the selection already uses. *)
Theorem selection_covers_buckets (cands : list candidate) (b : string) (c : candidate) :
  In b ["market"; "policy"; "tech"] ->
  c ∈ cands -> bucket c = b ->
  (exists m, m ∈ pick_three_diverse cands /\ bucket m = b) \/
  In (source c) (map source (pick_three_diverse cands)).
Proof.
  intros Hb Hc Hbc. rewrite pick_three_diverse_all.
  destruct (selector_state_spec cands) as [(_ & Hused & _) _].
  destruct (selector_state_covered cands b Hb) as [Hm | Hall]; [by left | right].
  specialize (Hall c Hc Hbc). rewrite Hused in Hall.
  by apply elem_of_list_to_set, list_elem_of_In in Hall.
Qed.

(** X13.  The selection is made of candidates: every member of it is a
    member of the candidate list. *)
Theorem selection_from_candidates (cands : list candidate) :
  Forall (fun m => In m cands) (pick_three_diverse cands).
Proof.
  rewrite pick_three_diverse_all.
  destruct (selector_state_spec cands) as [(_ & _ & Hsub) _].
  apply Forall_forall. intros m Hm. by apply list_elem_of_In, Hsub.
Qed.

Lemma first_of_bucket_split b pre it post :
  Forall (fun c => bucket c <> b) pre -> bucket it = b ->
  first_of_bucket b ∅ (pre ++ it :: post) = Some it.
Proof.
  intros Hpre Hit. induction Hpre as [| x pre Hx _ IH]; simpl.
  - destruct (decide (source it ∈ (∅ : gset string))) as [Hin | _]; [set_solver |].
    apply String.eqb_eq in Hit. by rewrite Hit.
  - destruct (decide (source x ∈ (∅ : gset string))) as [Hin | _]; [set_solver |].
    apply String.eqb_neq in Hx. by rewrite Hx.
Qed.

Lemma selection_head_market cands it :
  first_of_bucket "market" ∅ cands = Some it ->
  head (pick_three_diverse cands) = Some it.
Proof.
  intros H. rewrite pick_three_diverse_all. unfold selector_state.
  change (fold_left (fill_bucket cands) ["market"; "policy"; "tech"] ([], ∅))
    with (fold_left (fill_bucket cands) ["policy"; "tech"]
            (fill_bucket cands ([], ∅) "market")).
  set (st0 := fill_bucket cands ([], ∅) "market").
  assert (H0 : fst st0 = [it]) by (unfold st0, fill_bucket; simpl; by rewrite H).
  set (st1 := fold_left (fill_bucket cands) ["policy"; "tech"] st0).
  assert (He : extends st0 (if Nat.ltb (length (fst st1)) 3
                            then fill_rest cands st1 else st1)).
  { destruct (Nat.ltb _ 3).
    - eapply extends_trans; [apply phase1_extends | apply fill_rest_extends].
    - apply phase1_extends. }
  destruct He as [[ext He] _]. by rewrite He, H0.
Qed.

(** X2.  The market slot is filled first: the first candidate of the ranking
    that is in the market bucket leads the selection, whatever its rank. *)
Theorem selection_starts_with_market (pre post : list candidate) (it : candidate) :
  Forall (fun c => bucket c <> "market") pre ->
  bucket it = "market" ->
  head (pick_three_diverse (pre ++ it :: post)) = Some it.
Proof.
  intros Hpre Hit. by apply selection_head_market, first_of_bucket_split.
Qed.

Lemma selection_starts_with_market_witness :
  head (pick_three_diverse
          ([sample_candidate "OpenAI" "tech"; sample_candidate "AINOW" "policy"] ++
           sample_candidate "ITmedia AI+" "market" :: [sample_candidate "OpenAI" "market"]))
  = Some (sample_candidate "ITmedia AI+" "market").
Proof.
  apply selection_starts_with_market; [| reflexivity].
  repeat constructor; discriminate.
Defined.

Lemma selection_covers_buckets_witness :
  (exists m, m ∈ pick_three_diverse [sample_candidate "OpenAI" "tech"; sample_candidate "OpenAI" "policy"]
             /\ bucket m = "policy") \/
  In "OpenAI" (map source (pick_three_diverse
     [sample_candidate "OpenAI" "tech"; sample_candidate "OpenAI" "policy"])).
Proof.
  apply (selection_covers_buckets _ "policy" (sample_candidate "OpenAI" "policy"));
    [simpl; tauto | | reflexivity].
  apply elem_of_cons. right. apply elem_of_cons. by left.
Defined.

(** ** The order of the candidates *)

Lemma collect_candidates_eq w t :
  fst (collect_candidates w t) =
  take TOTAL_CANDIDATES
    (sort_by_key
       (fst (with_keys w
               (items (fst (collect_feeds w AI_TECH_RSS_FEEDS
                              {| items := []; seen_urls := ∅ |} t)))
               (snd (collect_feeds w AI_TECH_RSS_FEEDS
                       {| items := []; seen_urls := ∅ |} t))))).
Proof.
  unfold collect_candidates. cbv [mbind M_bind].
  destruct (collect_feeds w AI_TECH_RSS_FEEDS _ t) as [st t1]. simpl.
  by destruct (with_keys w (items st) t1) as [keyed t2].
Qed.

Lemma with_keys_key_of w l t : Forall (key_of w) (fst (with_keys w l t)).
Proof.
  revert t. induction l as [| x rest IH]; intros t; simpl; [constructor |].
  cbv [mbind M_bind]. unfold sort_key. cbv [mbind M_bind].
  destruct (date_parser_parse w (published_at x)) as [d |] eqn:Hd; simpl.
  - specialize (IH t). destruct (with_keys w rest t) as [ks t']. simpl in *.
    constructor; [| done]. split; [done |]. simpl. intros d' Hd'.
    rewrite Hd in Hd'. by injection Hd' as <-.
  - specialize (IH (S t)). destruct (with_keys w rest (S t)) as [ks t']. simpl in *.
    constructor; [| done]. split; [done |]. simpl. intros d' Hd'.
    by rewrite Hd in Hd'.
Qed.

Lemma key_le_total a b : key_le a b = false -> key_le b a = true.
Proof. unfold key_le. destruct a, b; simpl. lia. Qed.

Lemma key_le_trans a b c :
  key_le a b = true -> key_le b c = true -> key_le a c = true.
Proof. unfold key_le. destruct a, b, c; simpl. lia. Qed.

Lemma insert_sorted_sorted {A} (x : (Z * Z) * A) l :
  Sorted (fun a b => key_le (fst a) (fst b) = true) l ->
  Sorted (fun a b => key_le (fst a) (fst b) = true) (insert_sorted x l).
Proof.
  induction 1 as [| y l Hs IH Hhd]; simpl; [repeat constructor |].
  destruct (key_le (fst x) (fst y)) eqn:E.
  - constructor; [by constructor | by constructor].
  - constructor; [done |].
    destruct l as [| z l]; simpl.
    + constructor. by apply key_le_total.
    + destruct (key_le (fst x) (fst z)); constructor.
      * by apply key_le_total.
      * by inversion Hhd.
Qed.

Lemma fold_insert_sorted {A} (l : list ((Z * Z) * A)) :
  StronglySorted (fun a b => key_le (fst a) (fst b) = true)
    (fold_right insert_sorted [] l).
Proof.
  apply Sorted_StronglySorted.
  - intros a b c. apply key_le_trans.
  - induction l as [| x l IH]; simpl; [constructor | by apply insert_sorted_sorted].
Qed.

Lemma key_le_ranked w p q :
  key_of w p -> key_of w q -> key_le (fst p) (fst q) = true ->
  ranked_before w (snd p) (snd q).
Proof.
  intros [Hp1 Hp2] [Hq1 Hq2] H. unfold key_le in H. unfold ranked_before.
  rewrite <- Hp1, <- Hq1.
  destruct (Z.ltb_spec (fst (fst p)) (fst (fst q))) as [Hlt | Hge]; [by left |].
  simpl in H. apply andb_true_iff in H as [He Hle].
  apply Z.eqb_eq in He. apply Z.leb_le in Hle.
  right. split; [done |]. intros da db Ha Hb.
  rewrite (Hp2 _ Ha), (Hq2 _ Hb) in Hle. lia.
Qed.

Lemma sorted_ranked w (l : list ((Z * Z) * candidate)) :
  Forall (key_of w) l ->
  StronglySorted (fun a b => key_le (fst a) (fst b) = true) l ->
  StronglySorted (ranked_before w) (map snd l).
Proof.
  intros Hk Hs. induction Hs as [| p l Hs IH Hall]; simpl; [constructor |].
  apply Forall_cons in Hk as [Hp Hl].
  constructor; [by apply IH |].
  apply Forall_map. apply Forall_forall. intros q Hq.
  apply key_le_ranked; [done | | ].
  - by eapply Forall_forall in Hl.
  - by eapply List.Forall_forall in Hall; [| by apply list_elem_of_In].
Qed.

Lemma StronglySorted_take {A} (R : A -> A -> Prop) n l :
  StronglySorted R l -> StronglySorted R (take n l).
Proof.
  intros H. revert n. induction H as [| x l Hs IH Hall]; intros [| n]; simpl;
    try constructor; [apply IH | by apply Forall_take].
Qed.

Lemma fold_insert_perm {A} (l : list ((Z * Z) * A)) :
  Permutation (fold_right insert_sorted [] l) l.
Proof.
  induction l as [| x l IH]; simpl; [done |].
  by rewrite insert_sorted_perm, IH.
Qed.

(** X3.  The candidate list is ranked: the candidates of a source with a
    smaller priority number come first, and among candidates of equal
    priority whose dates both parse the newer comes first. *)
Theorem candidates_ranked (w : world) (t : nat) :
  StronglySorted (ranked_before w) (fst (collect_candidates w t)).
Proof.
  rewrite collect_candidates_eq.
  set (keyed := fst (with_keys w _ _)).
  apply StronglySorted_take. apply sorted_ranked.
  - rewrite fold_insert_perm. apply with_keys_key_of.
  - apply fold_insert_sorted.
Qed.

(** ** What the candidates are made of *)

Lemma collect_entries_built w name es st t (P : candidate -> Prop) :
  (forall c, built_from w name c -> P c) ->
  Forall P (items st) ->
  Forall P (items (fst (collect_entries w name es st t))).
Proof.
  intros HP. revert st t. induction es as [| e rest IH]; intros st t Hst; simpl; [done |].
  destruct (truthy_str (e_link e)) as [link |]; [| by apply IH].
  destruct (truthy_str (e_title e)) as [title |]; [| by apply IH].
  destruct (normalize_url _ _ link) as [nurl |] eqn:Hn; [| done].
  destruct (decide (nurl ∈ seen_urls st)); [by apply IH |].
  cbv zeta.
  destruct (looks_ai_related (strip_html title) _) eqn:Hrel; simpl; [| by apply IH].
  cbv [mbind M_bind].
  destruct (pick_published w e) as [dt |]; simpl.
  - apply IH. simpl. apply Forall_app. split; [done |].
    constructor; [| constructor]. apply HP.
    split; [done |]. split; [done |]. by eexists link, title, _.
  - apply IH. simpl. apply Forall_app. split; [done |].
    constructor; [| constructor]. apply HP.
    split; [done |]. split; [done |]. by eexists link, title, _.
Qed.

Lemma collect_feeds_built w feeds st t (P : candidate -> Prop) :
  (forall name c, In name (map fst feeds) -> built_from w name c -> P c) ->
  Forall P (items st) ->
  Forall P (items (fst (collect_feeds w feeds st t))).
Proof.
  revert st t. induction feeds as [| [name url] rest IH]; intros st t HP Hst; simpl; [done |].
  destruct (fetch_feed w name url) as [entries |].
  - cbv [mbind M_bind].
    pose proof (collect_entries_built w name (take PER_FEED_LIMIT entries) st t P) as H.
    destruct (collect_entries w name _ st t) as [st' t']. simpl in H.
    apply IH; [intros n c Hn; apply HP; by right |].
    apply H; [| done]. intros c. apply HP. by left.
  - apply IH; [| done]. intros n c Hn. apply HP. by right.
Qed.

Lemma collect_candidates_Forall w t (P : candidate -> Prop) :
  (forall c, well_formed w c -> P c) ->
  Forall P (fst (collect_candidates w t)).
Proof.
  intros HP. rewrite collect_candidates_eq. apply Forall_take.
  rewrite sort_by_key_perm, with_keys_snd.
  apply collect_feeds_built; [| constructor].
  intros name c Hn Hc. apply HP. by exists name.
Qed.

Lemma infer_bucket_range title summary :
  In (infer_bucket title summary) ["market"; "policy"; "tech"].
Proof.
  unfold infer_bucket. cbv zeta.
  repeat destruct (any_in _ _); simpl; tauto.
Qed.

Lemma source_priority_range name : (1 <= source_priority name <= 3)%Z.
Proof. unfold source_priority. cbv zeta. repeat destruct (any_in _ _); lia. Qed.

Lemma char_count_take n s : (char_count (PyStr.take_chars n s) <= n)%nat.
Proof.
  revert n. induction s as [| c r IH]; intros n; simpl; [lia |].
  destruct (PyStr.is_continuation c) eqn:E; simpl; rewrite ?E; simpl; [apply IH |].
  destruct n as [| n]; simpl; [lia |]. rewrite E. specialize (IH n). simpl. lia.
Qed.

Lemma take_chars_prefix n s : exists rest, s = (PyStr.take_chars n s ++ rest)%string.
Proof.
  revert n. induction s as [| c r IH]; intros n; simpl; [by exists "" |].
  destruct (PyStr.is_continuation c).
  - destruct (IH n) as [rest Hr]. exists rest. by rewrite append_cons, <- Hr.
  - destruct n as [| n]; [by exists (String c r) |].
    destruct (IH n) as [rest Hr]. exists rest. by rewrite append_cons, <- Hr.
Qed.

(** X4.  Every candidate comes from a configured feed and is classified
    from its own text: its source is the name of one of the feeds, its
    priority is [source_priority] of that name (1, 2 or 3), its bucket is
    one of the three and its title and summary passed the relevance
    filter. *)
Theorem candidates_classified (w : world) (t : nat) :
  Forall
    (fun c =>
       In (source c) (map fst AI_TECH_RSS_FEEDS) /\
       priority c = source_priority (source c) /\
       (1 <= priority c <= 3)%Z /\
       In (bucket c) ["market"; "policy"; "tech"] /\
       exists summary,
         looks_ai_related (original_title c) summary = true /\
         bucket c = infer_bucket (original_title c) summary)
    (fst (collect_candidates w t)).
Proof.
  apply collect_candidates_Forall.
  intros c (name & Hn & <- & Hp & link & title & summary & _ & _ & _ & Hrel & Hb).
  split; [done |]. split; [done |].
  split; [rewrite Hp; apply source_priority_range |].
  split; [rewrite Hb; apply infer_bucket_range |].
  by exists (strip_html summary).
Qed.

(** X5.  The text fields of every candidate are cleaned: the title is an
    output of [strip_html], the URL an output of [normalize_url], and the
    summary is the start of an output of [strip_html], cut to at most 1500
    characters. *)
Theorem candidates_cleaned (w : world) (t : nat) :
  Forall
    (fun c =>
       (exists title, original_title c = strip_html title) /\
       (exists link,
          normalize_url (check_bracketed_netloc w) (checknetloc_nfkc w) link
            = Some (original_url c)) /\
       (exists summary rest,
          strip_html summary = (summary_raw c ++ rest)%string) /\
       (char_count (summary_raw c) <= 1500)%nat)
    (fst (collect_candidates w t)).
Proof.
  apply collect_candidates_Forall.
  intros c (name & _ & _ & _ & link & title & summary & Hu & Ht & Hs & _).
  split; [by exists title |]. split; [by exists link |].
  rewrite Hs. split; [| apply char_count_take].
  exists summary. apply take_chars_prefix.
Qed.

(** ** The cap on the entries of a feed *)

Lemma count_source_app name l1 l2 :
  count_source name (l1 ++ l2) = (count_source name l1 + count_source name l2)%nat.
Proof. unfold count_source. by rewrite List.filter_app, length_app. Qed.

Lemma count_source_perm name l1 l2 :
  Permutation l1 l2 -> count_source name l1 = count_source name l2.
Proof.
  unfold count_source.
  induction 1 as [| x l l' _ IH | x y l | l l' l'' _ IH1 _ IH2]; simpl; [done | | | congruence].
  - destruct (String.eqb (source x) name); simpl; congruence.
  - by destruct (String.eqb (source x) name), (String.eqb (source y) name).
Qed.

Lemma collect_entries_count w name es st t n :
  (count_source n (items (fst (collect_entries w name es st t)))
   <= count_source n (items st) + (if String.eqb name n then length es else 0))%nat.
Proof.
  revert st t. induction es as [| e rest IH]; intros st t; simpl.
  { destruct (String.eqb name n); lia. }
  assert (Hskip : forall t',
    (count_source n (items (fst (collect_entries w name rest st t')))
     <= count_source n (items st) + (if String.eqb name n then S (length rest) else 0))%nat).
  { intros t'. specialize (IH st t'). destruct (String.eqb name n); lia. }
  destruct (truthy_str (e_link e)) as [link |]; [| apply Hskip].
  destruct (truthy_str (e_title e)) as [title |]; [| apply Hskip].
  destruct (normalize_url _ _ link) as [nurl |] eqn:Hn;
    [| simpl; destruct (String.eqb name n); lia].
  destruct (decide (nurl ∈ seen_urls st)); [apply Hskip |].
  cbv zeta. destruct (looks_ai_related _ _); simpl; [| apply Hskip].
  cbv [mbind M_bind].
  destruct (pick_published w e) as [dt |]; simpl.
  - etrans; [apply IH |]. simpl. rewrite count_source_app.
    unfold count_source at 2. simpl. destruct (String.eqb name n); simpl; lia.
  - etrans; [apply IH |]. simpl. rewrite count_source_app.
    unfold count_source at 2. simpl. destruct (String.eqb name n); simpl; lia.
Qed.

Lemma collect_feeds_count w feeds st t n :
  (count_source n (items (fst (collect_feeds w feeds st t)))
   <= count_source n (items st) +
      PER_FEED_LIMIT * length (List.filter (fun f => String.eqb (fst f) n) feeds))%nat.
Proof.
  revert st t. induction feeds as [| [name url] rest IH]; intros st t;
    cbn [collect_feeds List.filter fst]; [simpl; lia |].
  unfold PER_FEED_LIMIT in *.
  destruct (fetch_feed w name url) as [entries |].
  - cbv [mbind M_bind].
    pose proof (collect_entries_count w name (take 12 entries) st t n) as H.
    destruct (collect_entries w name _ st t) as [st' t']. cbn [fst] in H.
    etrans; [apply IH |].
    rewrite length_take in H.
    destruct (String.eqb name n); cbn [length]; lia.
  - etrans; [apply IH |]. destruct (String.eqb name n); cbn [length]; lia.
Qed.

Lemma filter_absent_key {A} (l : list (string * A)) n :
  n ∉ map fst l -> List.filter (fun f => String.eqb (fst f) n) l = [].
Proof.
  induction l as [| [k v] l IH]; simpl; [done |].
  intros Hn. apply not_elem_of_cons in Hn as [Hk Hl].
  destruct (String.eqb_spec k n) as [-> | _]; [done | by apply IH].
Qed.

Lemma filter_key_once {A} (l : list (string * A)) n :
  NoDup (map fst l) ->
  (length (List.filter (fun f => String.eqb (fst f) n) l) <= 1)%nat.
Proof.
  induction l as [| [k v] l IH]; simpl; [lia |].
  intros [Hk Hl]%NoDup_cons.
  destruct (String.eqb_spec k n) as [-> | _]; [| by apply IH].
  rewrite filter_absent_key by done. simpl. lia.
Qed.

Lemma feed_names_once n :
  (length (List.filter (fun f => String.eqb (fst f) n) AI_TECH_RSS_FEEDS) <= 1)%nat.
Proof.
  apply filter_key_once.
  apply (bool_decide_unpack (NoDup (map fst AI_TECH_RSS_FEEDS))). vm_compute. reflexivity.
Qed.

(** X6.  No source has more than twelve candidates: a feed contributes at
    most its first twelve entries, and the names of the feeds differ. *)
Theorem candidates_per_source (w : world) (t : nat) (name : string) :
  (count_source name (fst (collect_candidates w t)) <= 12)%nat.
Proof.
  rewrite collect_candidates_eq.
  set (keyed := fst (with_keys w _ _)).
  assert (Hc : (count_source name (sort_by_key keyed) <= 12)%nat).
  { rewrite (count_source_perm _ _ _ (sort_by_key_perm keyed)).
    unfold keyed. rewrite with_keys_snd.
    pose proof (collect_feeds_count w AI_TECH_RSS_FEEDS
                  {| items := []; seen_urls := ∅ |} t name) as H.
    pose proof (feed_names_once name) as H1.
    change (count_source name (items {| items := []; seen_urls := ∅ |})) with 0%nat in H.
    unfold PER_FEED_LIMIT in H. lia. }
  rewrite <- (take_drop TOTAL_CANDIDATES (sort_by_key keyed)), count_source_app in Hc.
  lia.
Qed.

(** ** A link that cannot be parsed *)

(** X7.  A link on which [normalize_url] raises ends the loop over the
    entries of its feed: the entries after it are not read, and what was
    collected before it stays. *)
Theorem bad_link_ends_feed (w : world) (name : string) (pre rest : list entry)
    (e : entry) (st : collector) (t : nat) (link title : string) :
  truthy_str (e_link e) = Some link ->
  truthy_str (e_title e) = Some title ->
  normalize_url (check_bracketed_netloc w) (checknetloc_nfkc w) link = None ->
  collect_entries w name (pre ++ e :: rest) st t = collect_entries w name pre st t.
Proof.
  intros Hl Ht Hn. revert st t.
  induction pre as [| x pre IH]; intros st t.
  - simpl. by rewrite Hl, Ht, Hn.
  - cbn [app collect_entries].
    destruct (truthy_str (e_link x)) as [xl |]; [| apply IH].
    destruct (truthy_str (e_title x)) as [xt |]; [| apply IH].
    destruct (normalize_url _ _ xl) as [nurl |]; [| done].
    destruct (decide (nurl ∈ seen_urls st)); [apply IH |].
    cbv zeta. destruct (negb (looks_ai_related _ _)); [apply IH |].
    cbv [mbind M_bind].
    destruct (pick_published w x) as [dt |]; simpl; apply IH.
Qed.

Lemma bad_link_ends_feed_witness :
  collect_entries (sample_world three_feeds "" Raised) "OpenAI" broken_feed
    {| items := []; seen_urls := ∅ |} 0 =
  collect_entries (sample_world three_feeds "" Raised) "OpenAI"
    [ plain_entry "https://openai.com/a" "An AI model" "" ]
    {| items := []; seen_urls := ∅ |} 0.
Proof.
  apply (bad_link_ends_feed _ "OpenAI"
           [ plain_entry "https://openai.com/a" "An AI model" "" ]
           [ plain_entry "https://openai.com/c" "An AI chip" "" ]
           (plain_entry "https://[openai.com/b" "An AI agent" "")
           _ 0 "https://[openai.com/b" "An AI agent");
    vm_compute; reflexivity.
Defined.

(** ** The run as a whole *)

Lemma enrich_version w picked t :
  payload_get "version" (fst (enrich w picked t)) = JStr FALLBACK_VERSION \/
  payload_get "version" (fst (enrich w picked t)) = JStr OPENAI_VERSION.
Proof.
  destruct (enrich_cases w picked t) as [[t' ->] | (kv & g & srcs & _ & ->)].
  - left. by rewrite fallback_payload_eq.
  - right. apply adopted_version.
Qed.

(** X8.  Only a write can make a run fail.  Whatever the feeds, the date
    parser and the analysis collaborator do, the run builds one payload,
    tagged as one of the two variants, and writes it first to the output
    path and then to a file of the archive directory; it completes when
    both writes succeed, writes nothing when the first fails and the
    output file alone when the second fails. *)
Theorem run_outcome (w : world) (t : nat) :
  exists payload date_iso,
    let archive := (ARCHIVE_DIR ++ "/" ++ date_iso ++ ".json")%string in
    fst (main w t) =
      (if can_write w OUT_PATH then
         if can_write w archive
         then Completed [ (OUT_PATH, payload); (archive, payload) ]
         else Failed [ (OUT_PATH, payload) ]
       else Failed []) /\
    (payload_get "version" payload = JStr FALLBACK_VERSION \/
     payload_get "version" payload = JStr OPENAI_VERSION).
Proof.
  destruct (main_writes_enriched w t) as [d Hm].
  eexists _, d. split; [exact Hm | apply enrich_version].
Qed.

(** ** The name of the archive file *)

Lemma enrich_adopted w picked t kv l :
  PyStr.is_empty (OPENAI_API_KEY w) = false ->
  openai_reply w picked = Returned (JDict kv) ->
  dict_get "items" kv = Some (JList l) ->
  length l = 3 ->
  Forall plain_item l ->
  enrich w picked t =
  (adopted kv (isoformat (clock w (S t)))
     (map JStr (sorted_strings (list_to_set (string_sources l)))), S (S t)).
Proof.
  intros Hk Hr Hi Hl Hplain.
  rewrite enrich_eq, openai_structurize_eq, Hk, Hr.
  rewrite (accepted_items kv l Hi Hl).
  unfold items_of. rewrite Hi.
  by rewrite (truthy_sources_plain l Hplain), sorted_set_strings.
Qed.

(** X9.  The archive file is named by the response.  When the adopted
    response of the analysis collaborator carries a non-empty string as
    [date_iso], the archive path is the archive directory, a slash, that
    string and [.json], whatever the string is: it is not checked to be a
    date, and may lead out of the archive directory. *)
Theorem response_date_names_archive (w : world) (t : nat)
    (kv : list (string * json)) (l : list json) (d : string) :
  let cands := fst (collect_candidates w t) in
  let picked := pick_three_diverse cands in
  PyStr.is_empty (OPENAI_API_KEY w) = false ->
  openai_reply w picked = Returned (JDict kv) ->
  dict_get "items" kv = Some (JList l) ->
  length l = 3 ->
  Forall plain_item l ->
  dict_get "date_iso" kv = Some (JStr d) ->
  PyStr.is_empty d = false ->
  exists payload,
    fst (main w t) = write_both w payload (ARCHIVE_DIR ++ "/" ++ d ++ ".json") /\
    payload_get "version" payload = JStr OPENAI_VERSION.
Proof.
  intros cands picked Hk Hr Hi Hl Hplain Hd Hne.
  rewrite main_eq.
  destruct (collect_candidates w t) as [cs t1] eqn:Ec. simpl in cands.
  subst cands picked.
  rewrite (enrich_adopted w _ t1 kv l Hk Hr Hi Hl Hplain).
  rewrite adopted_get_other, Hd by done. simpl. rewrite Hne. simpl.
  eexists. split; [reflexivity | apply adopted_version].
Qed.

Lemma response_date_names_archive_witness :
  exists payload,
    fst (main (sample_world three_feeds "sk-test" (Returned (JDict escaping_reply))) 0) =
      Completed [ (OUT_PATH, payload); ("public/archive/../index.json", payload) ].
Proof.
  destruct (response_date_names_archive
              (sample_world three_feeds "sk-test" (Returned (JDict escaping_reply))) 0
              escaping_reply
              [ JDict [ ("source", JStr "a") ]; JDict []; JDict [] ]
              "../index" eq_refl eq_refl eq_refl eq_refl) as (payload & Hm & _).
  - repeat constructor; eexists; (split; [reflexivity |]); simpl; eauto.
  - reflexivity.
  - reflexivity.
  - exists payload. exact Hm.
Defined.

(** ** A run without a credential *)

Lemma collect_entries_with_reply w reply name es st t :
  collect_entries (with_reply w reply) name es st t = collect_entries w name es st t.
Proof.
  revert st t. induction es as [| e rest IH]; intros st t; [reflexivity |].
  cbn [collect_entries].
  change (check_bracketed_netloc (with_reply w reply)) with (check_bracketed_netloc w).
  change (checknetloc_nfkc (with_reply w reply)) with (checknetloc_nfkc w).
  change (pick_published (with_reply w reply) e) with (pick_published w e).
  change (now (with_reply w reply)) with (now w).
  destruct (truthy_str (e_link e)) as [link |]; [| apply IH].
  destruct (truthy_str (e_title e)) as [title |]; [| apply IH].
  destruct (normalize_url _ _ link) as [nurl |]; [| done].
  destruct (decide (nurl ∈ seen_urls st)); [apply IH |].
  cbv zeta. destruct (negb (looks_ai_related _ _)); [apply IH |].
  cbv [mbind M_bind].
  destruct (pick_published w e) as [dt |]; simpl; apply IH.
Qed.

Lemma collect_feeds_with_reply w reply feeds st t :
  collect_feeds (with_reply w reply) feeds st t = collect_feeds w feeds st t.
Proof.
  revert st t. induction feeds as [| [name url] rest IH]; intros st t; [reflexivity |].
  cbn [collect_feeds].
  change (fetch_feed (with_reply w reply)) with (fetch_feed w).
  destruct (fetch_feed w name url) as [entries |]; [| apply IH].
  cbv [mbind M_bind]. rewrite collect_entries_with_reply.
  destruct (collect_entries w name _ st t) as [st' t']. apply IH.
Qed.

Lemma with_keys_with_reply w reply l t :
  with_keys (with_reply w reply) l t = with_keys w l t.
Proof.
  revert t. induction l as [| x rest IH]; intros t; [reflexivity |].
  cbn [with_keys]. cbv [mbind M_bind].
  change (sort_key (with_reply w reply) x t) with (sort_key w x t).
  destruct (sort_key w x t) as [k t1]. by rewrite IH.
Qed.

Lemma collect_candidates_with_reply w reply t :
  collect_candidates (with_reply w reply) t = collect_candidates w t.
Proof.
  unfold collect_candidates. cbv [mbind M_bind].
  rewrite collect_feeds_with_reply.
  destruct (collect_feeds w _ _ t) as [st t1].
  by rewrite with_keys_with_reply.
Qed.

Lemma enrich_no_credential w picked t :
  PyStr.is_empty (OPENAI_API_KEY w) = true ->
  enrich w picked t = fallback_payload w picked t.
Proof. intros Hk. by rewrite enrich_eq, openai_structurize_eq, Hk. Qed.

(** X10.  Without a credential the analysis collaborator plays no part: the
    run is the same whatever the collaborator would have replied, and every
    payload it writes is the fallback payload of the selection. *)
Theorem no_credential_no_analysis (w : world) (t : nat)
    (reply : list candidate -> outcome json) :
  PyStr.is_empty (OPENAI_API_KEY w) = true ->
  main (with_reply w reply) t = main w t /\
  Forall (fun p =>
            payload_get "version" p = JStr FALLBACK_VERSION /\
            payload_get "items" p =
              JList (map mk (pick_three_diverse (fst (collect_candidates w t)))))
         (written (fst (main w t))).
Proof.
  intros Hk. split.
  - rewrite !main_eq, collect_candidates_with_reply.
    destruct (collect_candidates w t) as [cands t1].
    rewrite !enrich_no_credential by done.
    rewrite !fallback_payload_eq.
    unfold write_both, format_value. reflexivity.
  - eapply Forall_impl; [apply main_written |].
    intros p <-. rewrite enrich_no_credential by done.
    by rewrite fallback_payload_eq.
Qed.

Lemma no_credential_no_analysis_witness :
  main (with_reply (sample_world three_feeds "" Raised)
          (fun _ => Returned (JDict loose_items))) 0 =
  main (sample_world three_feeds "" Raised) 0.
Proof.
  apply (no_credential_no_analysis (sample_world three_feeds "" Raised) 0). reflexivity.
Defined.

(** ** The sources of the fallback payload *)

Lemma ascii_compare_trans_lt a b c :
  Ascii.compare a b = Lt -> Ascii.compare b c = Lt -> Ascii.compare a c = Lt.
Proof.
  unfold Ascii.compare. rewrite !N.compare_lt_iff. lia.
Qed.

Lemma ascii_compare_eq a b : Ascii.compare a b = Eq -> a = b.
Proof.
  unfold Ascii.compare. intros H%N.compare_eq.
  by rewrite <- (ascii_N_embedding a), <- (ascii_N_embedding b), H.
Qed.

Lemma string_compare_trans s1 s2 s3 :
  String.compare s1 s2 <> Gt -> String.compare s2 s3 <> Gt ->
  String.compare s1 s3 <> Gt.
Proof.
  revert s2 s3. induction s1 as [| a s1 IH]; intros [| b s2] [| c s3]; simpl; try done.
  destruct (Ascii.compare a b) eqn:Eab; [| | done].
  - apply ascii_compare_eq in Eab as ->.
    destruct (Ascii.compare b c); [apply IH | done | done].
  - destruct (Ascii.compare b c) eqn:Ebc; [| | done].
    + apply ascii_compare_eq in Ebc as ->. by rewrite Eab.
    + by rewrite (ascii_compare_trans_lt a b c).
Qed.

Lemma string_leb_trans s1 s2 s3 :
  String.leb s1 s2 = true -> String.leb s2 s3 = true -> String.leb s1 s3 = true.
Proof.
  unfold String.leb. intros H1 H2.
  pose proof (string_compare_trans s1 s2 s3) as H.
  destruct (String.compare s1 s2), (String.compare s2 s3), (String.compare s1 s3);
    try done; exfalso; by apply H.
Qed.

Lemma insert_string_perm x l : Permutation (insert_string x l) (x :: l).
Proof.
  induction l as [| y l IH]; simpl; [done |].
  destruct (String.leb x y); [done |]. rewrite IH. constructor.
Qed.

Lemma insert_string_sorted x l :
  Sorted (fun a b => String.leb a b = true) l ->
  Sorted (fun a b => String.leb a b = true) (insert_string x l).
Proof.
  induction 1 as [| y l Hs IH Hhd]; simpl; [repeat constructor |].
  destruct (String.leb x y) eqn:E.
  - constructor; [by constructor | by constructor].
  - assert (Hyx : String.leb y x = true)
      by (destruct (String.leb_total x y); congruence).
    constructor; [done |].
    destruct l as [| z l]; simpl; [by constructor |].
    destruct (String.leb x z); constructor; [done | by inversion Hhd].
Qed.

Lemma fold_insert_string_perm l : Permutation (fold_right insert_string [] l) l.
Proof.
  induction l as [| x l IH]; simpl; [done |]. by rewrite insert_string_perm, IH.
Qed.

Lemma fold_insert_string_sorted l :
  Sorted (fun a b => String.leb a b = true) (fold_right insert_string [] l).
Proof.
  induction l as [| x l IH]; simpl; [constructor | by apply insert_string_sorted].
Qed.

Lemma sorted_strings_spec (s : gset string) :
  ascending (sorted_strings s) /\
  NoDup (sorted_strings s) /\
  forall x, x ∈ sorted_strings s <-> x ∈ s.
Proof.
  assert (Hp : Permutation (sorted_strings s) (elements s)).
  { apply fold_insert_string_perm. }
  split; [| split].
  - apply Sorted_StronglySorted; [intros a b c; apply string_leb_trans |].
    apply fold_insert_string_sorted.
  - rewrite Hp. apply NoDup_elements.
  - intros x. rewrite Hp. apply elem_of_elements.
Qed.

(** X11.  The [sources] of the fallback payload are the sources of the
    selection, each once, in ascending order. *)
Theorem fallback_sources_sorted (w : world) (picked : list candidate) (t : nat) :
  exists l,
    payload_get "sources" (fst (fallback_payload w picked t)) = JList (map JStr l) /\
    ascending l /\ NoDup l /\
    forall s, In s l <-> In s (map source picked).
Proof.
  exists (sorted_strings (list_to_set (map source picked))).
  split; [by rewrite fallback_payload_eq |].
  destruct (sorted_strings_spec (list_to_set (map source picked))) as (Ha & Hn & He).
  split; [done |]. split; [done |].
  intros s. rewrite <- !list_elem_of_In, He. apply elem_of_list_to_set.
Qed.

(** ** The entries of the fallback payload *)

Lemma str_or_nonempty a b :
  PyStr.is_empty b = false -> PyStr.is_empty (PyStr.str_or a b) = false.
Proof. unfold PyStr.str_or. by destruct (PyStr.is_empty a) eqn:E. Qed.

(** X12.  A templated entry repeats the title, URL, date and source of its
    candidate; its [title_ja] is the start of the title, of at most 30
    characters, and its [one_sentence] the start of the summary, of at most
    60 characters, or a fixed text when the summary is empty: it is never
    empty. *)
Theorem fallback_entry_fields (a : candidate) :
  payload_get "original_title" (mk a) = JStr (original_title a) /\
  payload_get "original_url" (mk a) = JStr (original_url a) /\
  payload_get "published_at" (mk a) = JStr (published_at a) /\
  payload_get "source" (mk a) = JStr (source a) /\
  (exists s rest,
     payload_get "title_ja" (mk a) = JStr s /\
     original_title a = (s ++ rest)%string /\ (char_count s <= 30)%nat) /\
  (exists s,
     payload_get "one_sentence" (mk a) = JStr s /\
     PyStr.is_empty s = false /\
     ((PyStr.is_empty (summary_raw a) = false /\
       (exists rest, summary_raw a = (s ++ rest)%string) /\
       (char_count s <= 60)%nat) \/
      (PyStr.is_empty (summary_raw a) = true /\ s = "要約なし"))).
Proof.
  repeat (split; [reflexivity |]). split.
  - destruct (take_chars_prefix 30 (original_title a)) as [rest Hr].
    exists (PyStr.take_chars 30 (original_title a)), rest.
    split; [reflexivity |]. split; [done | apply char_count_take].
  - exists (PyStr.str_or (PyStr.take_chars 60 (summary_raw a)) "要約なし").
    split; [reflexivity |]. split; [by apply str_or_nonempty |].
    unfold PyStr.str_or.
    destruct (PyStr.is_empty (PyStr.take_chars 60 (summary_raw a))) eqn:E.
    + right. split; [| done].
      destruct (summary_raw a) as [| c r]; [done |]. simpl in E.
      destruct (PyStr.is_continuation c); done.
    + left. split; [by destruct (summary_raw a) |].
      split; [apply take_chars_prefix | apply char_count_take].
Qed.

(** ** The shape of a normalized URL *)

Section UrlShape.
Import PyStr Url.
#[local] Open Scope string_scope.

Ltac ascii_cases c :=
  destruct c as [[] [] [] [] [] [] [] []]; vm_compute; try reflexivity;
  try discriminate; auto.

(** *** Parts of a string keep the properties of its characters *)

Lemma lstrip_from_all p k s :
  all_chars p s = true -> all_chars p (lstrip_from k s) = true.
Proof.
  revert k. induction s as [| c r IH]; intros k H; [done |].
  pose proof H as H'. cbn [all_chars] in H'. apply andb_true_iff in H' as [_ Hr].
  cbn [lstrip_from]. destruct k as [| k]; [| by apply IH].
  destruct (space_len (String c r)); [done | by apply IH].
Qed.

Lemma rstrip_all p s : all_chars p s = true -> all_chars p (rstrip s) = true.
Proof.
  induction s as [| c r IH]; intros H; [done |].
  cbn [rstrip]. destruct (all_space (String c r)); [done |].
  cbn [all_chars] in *. apply andb_true_iff in H as [Hc Hr].
  by rewrite Hc, IH.
Qed.

Lemma strip_all p s : all_chars p s = true -> all_chars p (strip s) = true.
Proof. intros H. by apply rstrip_all, lstrip_from_all. Qed.

Lemma lstrip_chars_all p q s :
  all_chars p s = true -> all_chars p (lstrip_chars q s) = true.
Proof.
  induction s as [| c r IH]; intros H; [done |].
  cbn [lstrip_chars]. destruct (q c); [| done].
  cbn [all_chars] in H. apply andb_true_iff in H as [_ Hr]. by apply IH.
Qed.

Lemma remove_chars_all p q s :
  all_chars p s = true -> all_chars p (remove_chars q s) = true.
Proof.
  induction s as [| c r IH]; intros H; [done |].
  cbn [all_chars] in H. apply andb_true_iff in H as [Hc Hr].
  cbn [remove_chars]. destruct (q c); [by apply IH |].
  cbn [all_chars]. by rewrite Hc, IH.
Qed.

Lemma drop_all p n s : all_chars p s = true -> all_chars p (drop n s) = true.
Proof.
  revert s. induction n as [| n IH]; intros [| c r] H; try done.
  cbn [all_chars] in H. apply andb_true_iff in H as [_ Hr]. by apply IH.
Qed.

Lemma partition_all p c s a b :
  all_chars p s = true -> partition c s = (a, b) ->
  all_chars p a = true /\ match b with Some b => all_chars p b = true | None => True end.
Proof.
  revert a b. induction s as [| d r IH]; intros a b H; cbn [partition].
  - by intros [= <- <-].
  - cbn [all_chars] in H. apply andb_true_iff in H as [Hd Hr].
    destruct (Ascii.eqb d c); [by intros [= <- <-] |].
    destruct (partition c r) as [a' b'] eqn:E. intros [= <- <-].
    destruct (IH a' b' Hr eq_refl) as [Ha Hb]. cbn [all_chars]. by rewrite Hd, Ha.
Qed.

Lemma split_once_all p c s a b :
  all_chars p s = true -> split_once c s = (a, b) ->
  all_chars p a = true /\ all_chars p b = true.
Proof.
  intros H. unfold split_once. destruct (partition c s) as [a' [b' |]] eqn:E;
    intros [= <- <-]; by destruct (partition_all p c s _ _ H E).
Qed.

Lemma partition_before c s a b :
  partition c s = (a, b) -> all_chars (fun d => negb (Ascii.eqb d c)) a = true.
Proof.
  revert a b. induction s as [| d r IH]; intros a b; cbn [partition].
  - by intros [= <- <-].
  - destruct (Ascii.eqb d c) eqn:Ed; [by intros [= <- <-] |].
    destruct (partition c r) as [a' b'] eqn:E. intros [= <- <-].
    cbn [all_chars]. rewrite Ed. simpl. by eapply IH.
Qed.

Lemma split_once_before c s a b :
  split_once c s = (a, b) -> all_chars (fun d => negb (Ascii.eqb d c)) a = true.
Proof.
  unfold split_once. destruct (partition c s) as [a' [b' |]] eqn:E;
    intros [= <- <-]; by eapply partition_before.
Qed.

Lemma span_until_all p q s a b :
  all_chars p s = true -> span_until q s = (a, b) ->
  all_chars p a = true /\ all_chars p b = true.
Proof.
  revert a b. induction s as [| c r IH]; intros a b H; cbn [span_until].
  - by intros [= <- <-].
  - destruct (q c); [by intros [= <- <-] |].
    cbn [all_chars] in H. apply andb_true_iff in H as [Hc Hr].
    destruct (span_until q r) as [a' b'] eqn:E. intros [= <- <-].
    destruct (IH a' b' Hr eq_refl) as [Ha Hb]. cbn [all_chars]. by rewrite Hc, Ha.
Qed.

Lemma span_until_before q s a b :
  span_until q s = (a, b) -> all_chars (fun c => negb (q c)) a = true.
Proof.
  revert a b. induction s as [| c r IH]; intros a b; cbn [span_until].
  - by intros [= <- <-].
  - destruct (q c) eqn:Ec; [by intros [= <- <-] |].
    destruct (span_until q r) as [a' b'] eqn:E. intros [= <- <-].
    cbn [all_chars]. rewrite Ec. simpl. by eapply IH.
Qed.

Lemma splitparams_all p s a b :
  all_chars p s = true -> _splitparams s = (a, b) ->
  all_chars p a = true /\ all_chars p b = true.
Proof.
  revert a b. induction s as [| c r IH]; intros a b H; cbn [_splitparams].
  - by intros [= <- <-].
  - destruct (has_char "/" r).
    + cbn [all_chars] in H. apply andb_true_iff in H as [Hc Hr].
      destruct (_splitparams r) as [a' b'] eqn:E. intros [= <- <-].
      destruct (IH a' b' Hr eq_refl) as [Ha Hb]. cbn [all_chars]. by rewrite Hc, Ha.
    + by apply split_once_all.
Qed.

Lemma split_scheme_all p url s rest :
  all_chars p url = true -> split_scheme url = Some (s, rest) ->
  all_chars p rest = true.
Proof.
  intros H. unfold split_scheme.
  destruct (partition ":" url) as [pre [post |]] eqn:E; [| by destruct pre].
  destruct (partition_all p ":" url _ _ H E) as [_ Hpost].
  destruct pre as [| c0 pre]; [done |].
  destruct (_ && _); [| done]. by intros [= <- <-].
Qed.

(** *** No fragment mark in the parts of a parsed URL *)

Lemma no_hash_app a b : no_hash a -> no_hash b -> no_hash (a ++ b).
Proof. unfold no_hash. intros Ha Hb. by rewrite all_chars_app, Ha, Hb. Qed.

Lemma no_hash_delim s :
  all_chars (fun c => negb (netloc_delim c)) s = true -> no_hash s.
Proof.
  apply all_chars_impl. intros c. unfold netloc_delim.
  destruct (Ascii.eqb c "#"); [| done]. by rewrite !orb_true_r.
Qed.

Lemma urlsplit_no_hash cb nf url sch nl pa q f :
  urlsplit cb nf url = Some (sch, nl, pa, q, f) ->
  no_hash nl /\ no_hash pa /\ no_hash q.
Proof.
  unfold urlsplit.
  set (url1 := remove_chars unsafe_url_byte (lstrip_chars c0_control_or_space url)).
  destruct (match split_scheme url1 with
            | Some (s, rest) => (s, rest)
            | None => ("", url1)
            end) as [s rest] eqn:Esch.
  destruct (startswith rest "//").
  - destruct (span_until netloc_delim (drop 2 rest)) as [nl' rest2] eqn:En.
    destruct (split_once "#" rest2) as [a1 b1] eqn:E3.
    destruct (split_once "?" a1) as [a2 b2] eqn:E4.
    destruct (brackets_ok cb nl' && _checknetloc nf nl'); [| done].
    intros [= <- <- <- <- <-].
    split; [eapply no_hash_delim, span_until_before, En |].
    eapply split_once_all; [| exact E4]. by eapply split_once_before.
  - destruct (split_once "#" rest) as [a1 b1] eqn:E3.
    destruct (split_once "?" a1) as [a2 b2] eqn:E4.
    destruct (true && _checknetloc nf ""); [| done].
    intros [= <- <- <- <- <-]. split; [done |].
    eapply split_once_all; [| exact E4]. by eapply split_once_before.
Qed.

Lemma urlparse_no_hash cb nf url p :
  urlparse cb nf url = Some p ->
  no_hash (netloc p) /\ no_hash (path p) /\ no_hash (params p).
Proof.
  unfold urlparse.
  destruct (urlsplit cb nf url) as [[[[[sch nl] pa] q] f] |] eqn:E; [| done].
  apply urlsplit_no_hash in E as (Hn & Hp & _).
  destruct (str_in sch uses_params && has_char ";" pa).
  - destruct (_splitparams pa) as [a b] eqn:E5. intros [= <-]. simpl.
    split; [done |]. by eapply splitparams_all.
  - intros [= <-]. simpl. done.
Qed.

Lemma scheme_no_hash s : all_chars scheme_char s = true -> no_hash s.
Proof. apply all_chars_impl. intros c. ascii_cases c. Qed.

Lemma lower_no_hash s : no_hash s -> no_hash (lower s).
Proof. apply lower_all. intros c. ascii_cases c. Qed.

Lemma norm_path_no_hash pa : no_hash pa -> no_hash (norm_path pa).
Proof.
  intros H. unfold norm_path, str_or.
  destruct (is_empty _); [done | by apply rstrip_chars_all].
Qed.

Lemma norm_query_no_hash q : no_hash (norm_query q).
Proof.
  unfold norm_query, no_hash.
  eapply all_chars_impl; [| apply urlencode_query_chars].
  intros c. apply query_char_not_hash.
Qed.

Lemma urlunparse_no_hash sch nl pa par q :
  no_hash sch -> no_hash nl -> no_hash pa -> no_hash par -> no_hash q ->
  no_hash (urlunparse sch nl pa par q "").
Proof.
  intros Hs Hn Hp Hr Hq. unfold urlunparse, urlunsplit.
  cbn [is_empty negb].
  repeat match goal with
  | |- context [if ?b then _ else _] => destruct b
  end; repeat apply no_hash_app; done.
Qed.

Lemma urlunparse_scheme sch nl pa par q :
  is_empty sch = false ->
  exists rest, urlunparse sch nl pa par q "" = sch ++ ":" ++ rest.
Proof.
  intros Hs. unfold urlunparse, urlunsplit. rewrite Hs. cbn [is_empty negb].
  destruct (negb (is_empty q)).
  - eexists. by rewrite !append_assoc.
  - by eexists.
Qed.

Lemma norm_scheme_not_http s : norm_scheme s <> "http".
Proof.
  unfold norm_scheme. destruct (String.eqb_spec (str_or s "https") "http"); done.
Qed.

Lemma scheme_prefix_http sch rest :
  all_chars scheme_char sch = true -> sch <> "http" ->
  startswith (sch ++ ":" ++ rest) "http:" = false.
Proof.
  intros Hc Hne. destruct (startswith _ _) eqn:E; [| done]. exfalso.
  apply startswith_spec in E as [t Ht].
  destruct sch as [| c1 [| c2 [| c3 [| c4 [| c5 sch]]]]];
    rewrite ?append_cons, ?append_nil_l in Ht; try (by injection Ht).
  - injection Ht as -> -> -> -> _. done.
  - injection Ht as _ _ _ _ -> _.
    cbn [all_chars] in Hc. rewrite !andb_true_iff in Hc.
    by destruct Hc as (_ & _ & _ & _ & Hc & _).
Qed.

(** X14.  A normalized URL carries no fragment and is never on plain
    [http]: whenever [normalize_url] returns, the result holds no [#], and
    it begins with a scheme, a lower-case one other than [http], and a
    colon. *)
Theorem normalized_shape (cb nf : string -> bool) (u v : string) :
  normalize_url cb nf u = Some v ->
  has_char "#" v = false /\
  startswith v "http:" = false /\
  exists sch rest, v = sch ++ ":" ++ rest /\ valid_scheme sch /\ sch <> "http".
Proof.
  rewrite normalize_url_eq.
  destruct (urlparse cb nf (strip u)) as [p |] eqn:Ep; [| done].
  intros [= <-].
  destruct (urlparse_facts cb nf _ p Ep) as [Hsch _].
  destruct (urlparse_no_hash cb nf _ p Ep) as (Hn & Hp & Hr).
  pose proof (norm_scheme_valid _ Hsch) as Hv.
  destruct (urlunparse_scheme (norm_scheme (scheme p)) (lower (netloc p))
              (norm_path (path p)) (params p) (norm_query (query p))
              (norm_scheme_nonempty _)) as [rest Hrest].
  split; [| split].
  - apply has_char_none. apply urlunparse_no_hash;
      [apply scheme_no_hash, Hv | by apply lower_no_hash
      | by apply norm_path_no_hash | done | apply norm_query_no_hash].
  - rewrite Hrest. apply scheme_prefix_http; [apply Hv | apply norm_scheme_not_http].
  - exists (norm_scheme (scheme p)), rest.
    split; [done |]. split; [done | apply norm_scheme_not_http].
Qed.

Lemma normalized_shape_witness :
  normalize_url (fun _ => true) (fun _ => true) "HTTP://Example.com/a/#top"
    = Some "https://example.com/a" /\
  has_char "#" "https://example.com/a" = false.
Proof.
  split; [vm_compute; reflexivity |].
  refine (proj1 (normalized_shape (fun _ => true) (fun _ => true)
            "HTTP://Example.com/a/#top" "https://example.com/a" _)).
  vm_compute. reflexivity.
Defined.

(** *** Texts on which [normalize_url] returns *)

Lemma plain_byte_ascii s :
  all_chars plain_byte s = true -> all_chars is_ascii_char s = true.
Proof.
  apply all_chars_impl. intros c. unfold plain_byte.
  rewrite !andb_true_iff. tauto.
Qed.

Lemma plain_byte_brackets s :
  all_chars plain_byte s = true -> has_char "[" s = false /\ has_char "]" s = false.
Proof.
  intros H. split; apply has_char_none; revert H; apply all_chars_impl;
    intros c; unfold plain_byte; rewrite !andb_true_iff; tauto.
Qed.

Lemma checks_plain cb nf nl :
  all_chars plain_byte nl = true -> brackets_ok cb nl && _checknetloc nf nl = true.
Proof.
  intros H. unfold brackets_ok, _checknetloc.
  destruct (plain_byte_brackets nl H) as [-> ->].
  rewrite (plain_byte_ascii nl H). cbn. by rewrite orb_true_r.
Qed.

Lemma urlsplit_returns cb nf url :
  all_chars plain_byte url = true -> exists r, urlsplit cb nf url = Some r.
Proof.
  intros H. unfold urlsplit.
  set (url1 := remove_chars unsafe_url_byte (lstrip_chars c0_control_or_space url)).
  assert (H1 : all_chars plain_byte url1 = true)
    by (by apply remove_chars_all, lstrip_chars_all).
  assert (Hrest : forall s rest,
             match split_scheme url1 with
             | Some (s, rest) => (s, rest)
             | None => ("", url1)
             end = (s, rest) -> all_chars plain_byte rest = true).
  { intros s rest. destruct (split_scheme url1) as [[s' rest'] |] eqn:Es.
    - intros [= <- <-]. by eapply split_scheme_all.
    - by intros [= <- <-]. }
  destruct (match split_scheme url1 with
            | Some (s, rest) => (s, rest)
            | None => ("", url1)
            end) as [s rest] eqn:Esch.
  specialize (Hrest s rest eq_refl).
  destruct (startswith rest "//").
  - destruct (span_until netloc_delim (drop 2 rest)) as [nl' rest2] eqn:En.
    destruct (split_once "#" rest2) as [a1 b1] eqn:E3.
    destruct (split_once "?" a1) as [a2 b2] eqn:E4.
    rewrite checks_plain; [by eexists |].
    eapply (span_until_all plain_byte netloc_delim _ nl' rest2); [| exact En].
    by apply drop_all.
  - destruct (split_once "#" rest) as [a1 b1] eqn:E3.
    destruct (split_once "?" a1) as [a2 b2] eqn:E4.
    by eexists.
Qed.

(** X15.  [normalize_url] raises on bracketed or non-ASCII hosts only: on
    a text of ASCII characters without square brackets it returns,
    whatever the text is. *)
Theorem normalize_url_returns (cb nf : string -> bool) (u : string) :
  all_chars plain_byte u = true ->
  exists v, normalize_url cb nf u = Some v.
Proof.
  intros H. rewrite normalize_url_eq. unfold urlparse.
  destruct (urlsplit_returns cb nf (strip u)) as [[[[[sch nl] pa] q] f] ->];
    [by apply strip_all |].
  destruct (_ && _); [destruct (_splitparams pa) |]; by eexists.
Qed.

Lemma normalize_url_returns_witness :
  exists v, normalize_url (fun _ => false) (fun _ => false) " not a url;x?? " = Some v.
Proof. apply normalize_url_returns. vm_compute. reflexivity. Defined.

(** *** The normal form of an ordinary URL *)

(** X16.  The normal form of an ordinary URL.  Take a lower-case scheme, a
    non-empty host of printable ASCII characters other than the space,
    [/ ? #] and the brackets, a path that begins with [/], of printable
    ASCII characters other than the space and [? # ;], and a query of
    letters, digits and [_ . - ~ + % = &].  On [scheme://host/path], with
    [?] and the query after it when the query is not empty,
    [normalize_url] returns the URL of the same form in which [http] has
    become [https], the host is in lower case, the path has lost the
    slashes at its end ([/] when nothing else is left), and the query is
    parsed, loses the parameters whose name starts with [utm_] in any
    case, and is encoded again in the same order. *)
Theorem normalize_ordinary_url (cb nf : string -> bool) (sch nl r q : string) :
  valid_scheme sch ->
  is_empty nl = false ->
  all_chars netloc_char nl = true ->
  all_chars path_char (String "/" r) = true ->
  all_chars query_char q = true ->
  normalize_url cb nf (plain_url sch nl (String "/" r) q) =
  Some (plain_url (if String.eqb sch "http" then "https" else sch)
          (lower nl)
          (str_or (rstrip_chars (Ascii.eqb "/") (String "/" r)) "/")
          (urlencode (List.filter keep_param (parse_qsl q)))).
Proof.
  intros Hsch Hne Hnl Hpa Hq.
  rewrite normalize_url_eq.
  rewrite strip_graphic.
  2: { destruct Hsch as (_ & Hc & _). apply plain_url_graphic.
       - by apply (all_chars_impl scheme_char graphic _ scheme_char_graphic).
       - by apply (all_chars_impl netloc_char graphic _ netloc_char_graphic).
       - by apply (all_chars_impl path_char graphic _ path_char_graphic).
       - by apply (all_chars_impl query_char graphic _ query_char_graphic). }
  rewrite urlparse_plain by done. cbn [scheme netloc path params query].
  destruct (norm_path_head (String "/" r)) as [r' Hr']; [right; by eexists |].
  rewrite Hr'. rewrite urlunparse_plain;
    [| apply norm_scheme_nonempty | by rewrite is_empty_lower].
  rewrite <- Hr'. unfold norm_scheme, norm_query, norm_path.
  destruct sch as [| c sch]; [by destruct Hsch as [[] _] |]. done.
Qed.

Lemma normalize_ordinary_url_witness :
  normalize_url (fun _ => true) (fun _ => true)
    "http://Example.com/Post//?utm_Source=x&B=1%20" =
  Some "https://example.com/Post?B=1+".
Proof.
  exact (normalize_ordinary_url (fun _ => true) (fun _ => true)
           "http" "Example.com" "Post//" "utm_Source=x&B=1%20"
           (conj eq_refl (conj eq_refl eq_refl)) eq_refl eq_refl eq_refl eq_refl).
Defined.

(** *** Encoding and parsing a query *)

(** X17.  Parsing undoes encoding: a list of pairs of ASCII texts, written
    by [urlencode] and read by [parse_qsl], comes back as it was, blank
    values and repeated names included; so does a text written by
    [quote_plus] and read back. *)
Theorem query_round_trip (q : list (string * string)) :
  ascii_pairs q = true ->
  parse_qsl (urlencode q) = q /\
  Forall (fun kv =>
            unquote (replace_char "+" " " (quote_plus (fst kv))) = fst kv /\
            unquote (replace_char "+" " " (quote_plus (snd kv))) = snd kv) q.
Proof.
  intros H. split; [by apply parse_qsl_urlencode |].
  unfold ascii_pairs in H. rewrite forallb_forall in H.
  apply Forall_forall. intros kv Hkv%list_elem_of_In.
  specialize (H kv Hkv). apply andb_true_iff in H as [Hk Hv].
  split; by apply unquote_quote_plus.
Qed.

Lemma query_round_trip_witness :
  parse_qsl (urlencode [ ("a b", "c&d=e"); ("k", ""); ("k", "100%") ]) =
  [ ("a b", "c&d=e"); ("k", ""); ("k", "100%") ].
Proof.
  exact (proj1 (query_round_trip [ ("a b", "c&d=e"); ("k", ""); ("k", "100%") ] eq_refl)).
Defined.
End UrlShape.

(** ** [strip_html] *)

Section TextCleaning.
Import PyStr.
#[local] Open Scope string_scope.


(** *** Whitespace characters *)





(** *** Passing the bytes of a whitespace character *)









(** *** Prefixes *)




(** *** Whitespace after [collapse_spaces] and [strip] *)










(** *** Tags *)
















Example strip_html_sample :
  strip_html (" <p>Hello" ++ utf8_3 227 128 128 ++ " <b>AI</b>,<br/>a < b</p>" ++ utf8_2 194 160)
  = "Hello AI , a".
Proof. vm_compute. reflexivity. Qed.
End TextCleaning.

End MoreProperties.
